(** * Matmod: trapezoidal membership functions and their aggregation

    A shallow embedding of [graphic.py]: the [Plot] and [Layout] classes and
    the part of [Figure] that builds the layouts and looks a water
    temperature up.

    Numbers.  The breakpoints are Python floats and the sample points numpy
    floats, that is binary64 numbers.  [Plot], [Layout] and [Figure] model
    them as exact rationals in canonical form ([Qc]), so that [=] on [Qc] is
    numeric equality, which is what dictionary keys and [namedtuple]
    equality use.  [Plot64] is the same code of [Plot] on binary64 numbers.
    The two agree wherever the program rounds nothing; a statement on the
    exact model that rounding or overflow would break carries the
    hypothesis that keeps it true of the program ([DBL_MAX], [exact_grid],
    [exact_data]), and the lemmas on [Plot64] show what happens without
    it.

    Outcomes.  A Python call either returns a value or raises; a value may be
    [None].  [result] is the error monad, and [option Qc] a Python value that
    is a number or [None]. *)

From Stdlib Require Import PrimFloat.
From Stdlib Require FloatOps SpecFloat.
From Stdlib Require Import QArith Qcanon Qround Lqa.
From stdpp Require Import gmap strings list fin_maps.

Local Open Scope Qc_scope.

(** ** Exceptions and the error monad *)

Inductive exn : Set :=
  | ZeroDivisionError
  | TypeError
  | KeyError.

Inductive result (A : Type) : Type :=
  | Ok (a : A)
  | Raise (e : exn).
Arguments Ok {A} a.
Arguments Raise {A} e.

#[global] Instance result_ret : MRet result := λ A a, Ok a.
#[global] Instance result_bind : MBind result := λ A B k m,
  match m with
  | Ok a => k a
  | Raise e => Raise e
  end.
#[global] Instance result_fmap : FMap result := λ A B g m,
  match m with
  | Ok a => Ok (g a)
  | Raise e => Raise e
  end.

(** A Python value that is a number or [None]. *)
Abbreviation pyfloat := (option Qc).

(** [n / d] on floats: raises on a zero divisor. *)
Definition truediv (n d : Qc) : result pyfloat :=
  if decide (d = 0) then Raise ZeroDivisionError else Ok (Some (n / d)).

(** [old > new] where [new] may be [None]: a number does not compare with
    [None]. *)
Definition gt (old : Qc) (new : pyfloat) : result bool :=
  match new with
  | Some y => Ok (bool_decide (y < old))
  | None => Raise TypeError
  end.

(** [min(t)] and [max(t)] on a 4-tuple: a left-to-right scan that keeps the
    first extremal element. *)
Definition py_min (t : Qc * Qc * Qc * Qc) : Qc :=
  let '(a, b, c, d) := t in
  foldl (λ m v, if decide (v < m) then v else m) a [b; c; d].

Definition py_max (t : Qc * Qc * Qc * Qc) : Qc :=
  let '(a, b, c, d) := t in
  foldl (λ m v, if decide (m < v) then v else m) a [b; c; d].

(** [numpy.arange(stop)] for a real [stop]: the values [0, 1, ...] below
    [stop], that is [ceil(stop)] of them (none when [stop <= 0]). *)
Definition arange (stop : Qc) : list Qc :=
  (λ k : nat, Qc_of_Z (Z.of_nat k)) <$> seq 0 (Z.to_nat (Qceiling stop)).

(** ** class Plot(namedtuple('Plot', ('label', 'coords'))) *)

Module Plot.

Record t : Type := mk { label : string; coords : Qc * Qc * Qc * Qc }.

#[global] Instance eq_dec : EqDecision t.
Proof. solve_decision. Defined.

#[global] Instance countable : Countable t :=
  inj_countable' (λ p, (label p, coords p)) (λ lc, mk lc.1 lc.2)
    (λ p, match p with mk _ _ => eq_refl end).

Definition start (self : t) : Qc := py_min (coords self).

(** [end] is a keyword here, hence the underscore. *)
Definition end_ (self : t) : Qc := py_max (coords self).

Definition size (self : t) : Qc := end_ self - start self.

(** The [if]/[elif] chain of [membership], lines 38-45, selects a branch;
    [Fallthrough] is falling off the last [elif]. *)
Inductive branch : Set :=
  | Outside
  | Rising
  | Plateau
  | Falling
  | Fallthrough.

Definition branch_at (self : t) (x : Qc) : branch :=
  let '(a, b, c, d) := coords self in
  if decide (d < x ∨ x < a) then Outside
  else if decide (a ≤ x ∧ x < b) then Rising
  else if decide (b ≤ x ∧ x ≤ c) then Plateau
  else if decide (c < x ∧ x ≤ d) then Falling
  else Fallthrough.

(** The body of the selected branch; a function that falls through
    returns [None]. *)
Definition membership (self : t) (x : Qc) : result pyfloat :=
  let '(a, b, c, d) := coords self in
  match branch_at self x with
  | Outside => Ok (Some 0)
  | Rising => truediv (x - a) (b - a)
  | Plateau => Ok (Some 1)
  | Falling => truediv (d - x) (d - c)
  | Fallthrough => Ok None
  end.

(** [plot.start + numpy.arange(plot.size)], line 68. *)
Definition xValues (self : t) : list Qc :=
  (λ k, start self + k) <$> arange (size self).

End Plot.

(** ** class Plot, on binary64 numbers *)

Module Plot64.

Local Open Scope float_scope.

(** [n / d] on Python floats: raises on a zero divisor, and only then. *)
Definition truediv (n d : float) : result (option float) :=
  if d =? 0 then Raise ZeroDivisionError else Ok (Some (n / d)).

(** [min(coords)] and [max(coords)], lines 25 and 29. *)
Definition start (coords : float * float * float * float) : float :=
  let '(a, b, c, d) := coords in
  foldl (λ m v, if v <? m then v else m) a [b; c; d].

Definition end_ (coords : float * float * float * float) : float :=
  let '(a, b, c, d) := coords in
  foldl (λ m v, if m <? v then v else m) a [b; c; d].

Definition size (coords : float * float * float * float) : float :=
  end_ coords - start coords.

(** Lines 35-45. *)
Definition membership (coords : float * float * float * float) (x : float)
  : result (option float) :=
  let '(a, b, c, d) := coords in
  if (d <? x) || (x <? a) then Ok (Some 0)
  else if (a <=? x) && (x <? b) then truediv (x - a) (b - a)
  else if (b <=? x) && (x <=? c) then Ok (Some 1)
  else if (c <? x) && (x <=? d) then truediv (d - x) (d - c)
  else Ok None.

(** The least integer that is not below a finite [f]; [0] stands in for the
    infinities and [nan], on which [numpy.arange] raises. *)
Definition ceil (f : float) : Z :=
  match FloatOps.Prim2SF f with
  | SpecFloat.S754_finite s m e =>
      let v := if s then Z.neg m else Z.pos m in
      if (0 <=? e)%Z then (v * 2 ^ e)%Z else (- ((- v) / 2 ^ (- e)))%Z
  | _ => 0%Z
  end.

(** The double of a natural number, exact below [2^53]. *)
Fixpoint of_nat (n : nat) : float :=
  match n with
  | O => 0
  | S k => of_nat k + 1
  end.

(** [numpy.arange(stop)]: the doubles [0, 1, ...], [ceil(stop)] of them. *)
Definition arange (stop : float) : list float :=
  of_nat <$> seq 0 (Z.to_nat (ceil stop)).

(** Line 68. *)
Definition xValues (coords : float * float * float * float) : list float :=
  (λ k, start coords + k) <$> arange (size coords).

End Plot64.

(** ** class Layout(namedtuple('Layout', ('title', 'start', 'end'))) *)

Module Layout.

(** [values] is the dictionary [self.values]: its keys are sample points,
    its values what [membership] returned.  [plots] is the Python [set] of
    value-equal [Plot] records. *)
Record t : Type := mk {
  title : string;
  start : Z;
  end_ : Z;
  values : gmap Qc pyfloat;
  plots : gset Plot.t
}.

(** [Layout(title=..., start=..., end=...)]: [__init__] gives an empty
    dictionary and an empty set. *)
Definition init (title : string) (start end_ : Z) : t :=
  mk title start end_ ∅ ∅.

Definition size (self : t) : Z := (end_ self - start self)%Z.

Definition add (self : t) (plot : Plot.t) : t :=
  mk (title self) (start self) (end_ self) (values self)
     ({[ plot ]} ∪ plots self).

(** [values.get(x)]: [None] when the key is absent, or when [None] is what
    is stored. *)
Definition get (values : gmap Qc pyfloat) (x : Qc) : pyfloat :=
  mjoin (values !! x).

(** Lines 72-78, the body of the inner loop. *)
Definition put (values : gmap Qc pyfloat) (plot : Plot.t) (x : Qc)
  : result (gmap Qc pyfloat) :=
  newY ← Plot.membership plot x;
  match get values x with
  | Some oldY =>
      skip ← gt oldY newY;
      if skip : bool then Ok values else Ok (<[x := newY]> values)
  | None => Ok (<[x := newY]> values)
  end.

(** Lines 71-78: [for x in xValues]. *)
Fixpoint put_all (values : gmap Qc pyfloat) (plot : Plot.t) (xs : list Qc)
  : result (gmap Qc pyfloat) :=
  match xs with
  | [] => Ok values
  | x :: xs' => values' ← put values plot x; put_all values' plot xs'
  end.

(** Lines 67-80: [for plot in self.plots], for a given iteration order.
    [yValues] only feeds [axis.plot]; the calls on [axis] draw and do not
    touch [values], so they are left out. *)
Fixpoint create_order (values : gmap Qc pyfloat) (order : list Plot.t)
  : result (gmap Qc pyfloat) :=
  match order with
  | [] => Ok values
  | plot :: rest =>
      values' ← put_all values plot (Plot.xValues plot);
      create_order values' rest
  end.

(** [create]: Python leaves the iteration order of a set unspecified, so
    every enumeration of [plots] is a possible run. *)
Definition creates (self : t) (order : list Plot.t) (self' : t) : Prop :=
  order ≡ₚ elements (plots self) ∧
  ∃ values', create_order (values self) order = Ok values' ∧
    self' = mk (title self) (start self) (end_ self) values' (plots self).

(** The run that takes the plots in the order [elements] lists them. *)
Definition create (self : t) : result t :=
  values' ← create_order (values self) (elements (plots self));
  Ok (mk (title self) (start self) (end_ self) values' (plots self)).

(** *** [create] with its calls on [axis] *)

(** The matplotlib [axis], as the calls [create] makes on it. *)
Inductive axis_call : Type :=
  | plot_call (xValues : list Qc) (yValues : list pyfloat) (label : string)
  | set_title (title : string)
  | set_ylabel (label : string)
  | set_xlim (xmin xmax : Z)
  | legend (loc : string).

Definition _LEGEND_LOCATION : string := "center left".
Definition _Y_LABEL : string := "Y".

(** Line 69, the list comprehension [plot.membership(x) for x in xValues]. *)
Fixpoint memberships (plot : Plot.t) (xs : list Qc)
  : result (list pyfloat) :=
  match xs with
  | [] => Ok []
  | x :: xs' =>
      y ← Plot.membership plot x;
      ys ← memberships plot xs';
      Ok (y :: ys)
  end.

(** Lines 67-80 for a given iteration order: the curve is computed, the
    table is updated, the curve is drawn. *)
Fixpoint draw_order (values : gmap Qc pyfloat) (axis : list axis_call)
    (order : list Plot.t) : result (gmap Qc pyfloat * list axis_call) :=
  match order with
  | [] => Ok (values, axis)
  | plot :: rest =>
      let xValues := Plot.xValues plot in
      yValues ← memberships plot xValues;
      values' ← put_all values plot xValues;
      draw_order values'
        (axis ++ [plot_call xValues yValues (Plot.label plot)]) rest
  end.

(** Lines 64-85, the whole of [create] for a given iteration order. *)
Definition create_on (self : t) (order : list Plot.t)
    (axis : list axis_call) : result (t * list axis_call) :=
  drawn ← draw_order (values self) axis order;
  Ok (mk (title self) (start self) (end_ self) drawn.1 (plots self),
      drawn.2 ++ [ set_title (title self);
                   set_ylabel _Y_LABEL;
                   set_xlim (start self) (end_ self);
                   legend _LEGEND_LOCATION ]).

End Layout.

(** ** Translation *)

(** [translation] is the dictionary read from [i18n.json] (empty when the
    file cannot be read); it is a parameter of everything that translates. *)
Definition translate (translation : gmap string string) (key : string)
  : string :=
  default key (translation !! key).

(** ** class Figure *)

Module Figure.

(** [_LAYOUTS_DATA] without the ['rect'] entries, which only place the
    charts: title, start, end and the named breakpoint tuples, in the order
    the dictionary literal lists them. *)
Definition _LAYOUTS_DATA
  : list (string * (Z * Z * list (string * (Z * Z * Z * Z)))) :=
  [ ("Square Footage",
      (200, 1000,
       [ ("Low square", (199, 200, 450, 510));
         ("Medium square", (450, 480, 720, 780));
         ("Big square", (710, 750, 1000, 1001)) ]))%Z;
    ("Street Temperature",
      (-30, 30,
       [ ("Low temperature", (-31, -30, 2, 6));
         ("Medium temperature", (1, 5, 18, 21));
         ("High temperature", (20, 23, 30, 32)) ]))%Z;
    ("Water Temperature",
      (40, 105,
       [ ("Low temperature", (39, 40, 57, 65));
         ("Medium temperature", (55, 60, 79, 83));
         ("High temperature", (78, 83, 105, 106)) ]))%Z ].

(** [tuple(map(float, plotCoords))] *)
Definition floats (plotCoords : Z * Z * Z * Z) : Qc * Qc * Qc * Qc :=
  let '(a, b, c, d) := plotCoords in
  (Qc_of_Z a, Qc_of_Z b, Qc_of_Z c, Qc_of_Z d).

Section WithTranslation.

Variable translation : gmap string string.

(** Lines 146-156: the layout of one entry with its plots added. *)
Definition layout_of (layoutTitle : string)
    (layoutData : Z * Z * list (string * (Z * Z * Z * Z))) : Layout.t :=
  let '(start, end_, plotsData) := layoutData in
  foldl (λ layout '(plotTitle, plotCoords),
           Layout.add layout
             (Plot.mk (translate translation plotTitle)
                      (floats plotCoords)))
        (Layout.init (translate translation layoutTitle) start end_)
        plotsData.

(** Lines 139-158: [self.__layouts], each layout created. *)
Fixpoint layouts_of
    (data : list (string * (Z * Z * list (string * (Z * Z * Z * Z)))))
    (layouts : gmap string Layout.t) : result (gmap string Layout.t) :=
  match data with
  | [] => Ok layouts
  | (layoutTitle, layoutData) :: data' =>
      layout ← Layout.create (layout_of layoutTitle layoutData);
      layouts_of data' (<[layoutTitle := layout]> layouts)
  end.

Definition init : result (gmap string Layout.t) :=
  layouts_of _LAYOUTS_DATA ∅.

End WithTranslation.

(** Line 189: [self.__layouts['Water Temperature'].values.get(...)]. *)
Definition membershipValue (layouts : gmap string Layout.t)
    (waterTemperature : Z) : result pyfloat :=
  match layouts !! "Water Temperature"%string with
  | Some layout =>
      Ok (Layout.get (Layout.values layout) (Qc_of_Z waterTemperature))
  | None => Raise KeyError
  end.

(** What [onTextChanged] puts in the text label; the number is shown
    rounded to four places, which is left to the caller. *)
Inductive textLabel : Type :=
  | Blank
  | Incorrect
  | Shown (membershipValue : Qc).

(** [int] is Python's parser of integers, [None] for [ValueError]. *)
Definition onTextChanged (int : string → option Z)
    (layouts : gmap string Layout.t) (text : string) : result textLabel :=
  if decide (text = EmptyString) then Ok Blank
  else
    match int text with
    | None => Ok Incorrect
    | Some waterTemperature =>
        membershipValue ← membershipValue layouts waterTemperature;
        match membershipValue with
        | None => Ok Incorrect
        | Some y => Ok (Shown y)
        end
    end.

End Figure.

(** ** Vocabulary of the statements *)

(** Breakpoints in ascending order, [a ≤ b ≤ c ≤ d]. *)
Definition sorted (plot : Plot.t) : Prop :=
  let '(a, b, c, d) := Plot.coords plot in a ≤ b ∧ b ≤ c ∧ c ≤ d.

(** The number [membership] returns, [0] standing in for the other outcomes
    (there are none, see [membership_degree]). *)
Definition degree (plot : Plot.t) (x : Qc) : Qc :=
  match Plot.membership plot x with
  | Ok (Some y) => y
  | _ => 0
  end.

(** What holds of [x] in each branch of [membership]. *)
Inductive branch_case (a b c d x : Qc) : Plot.branch → Prop :=
  | case_outside :
      d < x ∨ x < a → branch_case a b c d x Plot.Outside
  | case_rising :
      a ≤ x → x ≤ d → x < b → branch_case a b c d x Plot.Rising
  | case_plateau :
      a ≤ x → x ≤ d → b ≤ x → x ≤ c → branch_case a b c d x Plot.Plateau
  | case_falling :
      a ≤ x → x ≤ d → b ≤ x → c < x → branch_case a b c d x Plot.Falling.

(** Trapezoids used as concrete inputs.  [step_plot] has both edges
    vertical; [late_step] only the falling one. *)
Definition step_plot : Plot.t := Plot.mk "step" (0, 0, 1, 1).
Definition late_step : Plot.t := Plot.mk "late step" (0, 1, 2, 2).

(** The water-temperature trapezoid of the configuration. *)
Definition low_water : Plot.t :=
  Plot.mk "Low temperature" (Figure.floats (39, 40, 57, 65)%Z).

(** Breakpoints that are not integers. *)
Definition half_plot : Plot.t :=
  Plot.mk "half" (Q2Qc (1 # 2), 1, 2, Qc_of_Z 3).

(** Two overlapping trapezoids whose sample points do not coincide, and the
    layout that holds them. *)
Definition wide_plot : Plot.t :=
  Plot.mk "wide" (0, Qc_of_Z 3, Qc_of_Z 4, Qc_of_Z 5).
Definition shifted_plot : Plot.t :=
  Plot.mk "shifted" (Q2Qc (1 # 2), Q2Qc (3 # 4), 2, Q2Qc (5 # 2)).
Definition two_plots : Layout.t :=
  Layout.add (Layout.add (Layout.init "two" 0 5) wide_plot) shifted_plot.

(** Two trapezoids with integer breakpoints, the second with a vertical
    falling edge at [3], and the layout that holds them. *)
Definition ramp_plot : Plot.t :=
  Plot.mk "ramp" (Figure.floats (0, 4, 5, 6)%Z).
Definition edge_plot : Plot.t :=
  Plot.mk "edge" (Figure.floats (1, 2, 3, 3)%Z).
Definition edge_plots : Layout.t :=
  Layout.add (Layout.add (Layout.init "edge" 0 6) ramp_plot) edge_plot.

(** The water-temperature layout of the configuration, before [create]. *)
Definition water_layout (translation : gmap string string) : Layout.t :=
  Figure.layout_of translation "Water Temperature"
    (40, 105,
     [ ("Low temperature", (39, 40, 57, 65));
       ("Medium temperature", (55, 60, 79, 83));
       ("High temperature", (78, 83, 105, 106)) ])%Z.

(** *** Aggregation, key by key *)

(** What lines 74-78 leave at a key that held [old] when [membership] gives
    [new]: the old number when it is the greater one, the new one
    otherwise. *)
Definition keep (old : pyfloat) (new : Qc) : Qc :=
  match old with
  | Some oldY => if decide (new < oldY) then oldY else new
  | None => new
  end.

(** The entry of key [k] once [plot] has been sampled: touched only when [k]
    is one of the sample points of [plot]. *)
Definition sampled (k : Qc) (entry : option pyfloat) (plot : Plot.t)
  : option pyfloat :=
  if decide (k ∈ Plot.xValues plot)
  then Some (Some (keep (mjoin entry) (degree plot k)))
  else entry.

(** The entry of key [k] once the plots of [order] have been sampled. *)
Definition entry_after (order : list Plot.t) (k : Qc)
    (entry : option pyfloat) : option pyfloat :=
  foldl (sampled k) entry order.

(** [v] is the greatest number [membership] gives at [x] among the plots
    selected by [which]. *)
Definition is_max_at (which : Plot.t → Prop) (x v : Qc) : Prop :=
  (∃ f, which f ∧ Plot.membership f x = Ok (Some v)) ∧
  (∀ f y, which f → Plot.membership f x = Ok (Some y) → y ≤ v).

(** Integer breakpoints [a ≤ b ≤ c < d], as in the configuration. *)
Definition integer_trapezoid (plot : Plot.t) : Prop :=
  ∃ a b c d : Z,
    Plot.coords plot = Figure.floats (a, b, c, d) ∧ (a ≤ b ≤ c ∧ c < d)%Z.

(** *** Vocabulary of the further properties *)

(** A table that only holds numbers between [0] and [1]. *)
Definition unit_table (values : gmap Qc pyfloat) : Prop :=
  ∀ k e, values !! k = Some e → ∃ v, e = Some v ∧ 0 ≤ v ∧ v ≤ 1.

(** Two dictionaries of layouts with the same titles, and under each title
    the same table, start and end. *)
Definition same_tables (layouts1 layouts2 : gmap string Layout.t) : Prop :=
  ∀ title,
    match layouts1 !! title, layouts2 !! title with
    | Some l1, Some l2 =>
        Layout.values l1 = Layout.values l2 ∧
        Layout.start l1 = Layout.start l2 ∧
        Layout.end_ l1 = Layout.end_ l2
    | None, None => True
    | _, _ => False
    end.

(** The layout of [wide_plot] alone, and a table that holds a number. *)
Definition one_plot : Layout.t :=
  Layout.add (Layout.init "two" 0 5) wide_plot.
Definition seeded : Layout.t :=
  Layout.mk "seeded" 0 5 (<[1 := Some (Q2Qc (1 # 2))]> ∅) {[ wide_plot ]}.

(** The curve of a plot: its sample points and the number [membership]
    gives at each of them. *)
Definition curve_of (plot : Plot.t) : Layout.axis_call :=
  Layout.plot_call (Plot.xValues plot)
    ((λ x, Some (degree plot x)) <$> Plot.xValues plot)
    (Plot.label plot).

(** The calls that end [create]. *)
Definition closing_calls (self : Layout.t) : list Layout.axis_call :=
  [ Layout.set_title (Layout.title self);
    Layout.set_ylabel "Y";
    Layout.set_xlim (Layout.start self) (Layout.end_ self);
    Layout.legend "center left" ].

(** *** Where the exact model is the program *)

(** The largest finite double, [2^1024 - 2^971]: a difference of doubles
    that is at most [DBL_MAX] does not overflow. *)
Definition DBL_MAX : Qc := Qc_of_Z (2 ^ 1024 - 2 ^ 971).

(** [2^e] for an integer [e]. *)
Definition pow2 (e : Z) : Qc :=
  if decide (0 ≤ e)%Z then Qc_of_Z (2 ^ e) else / Qc_of_Z (2 ^ (- e)).

(** [q] is a finite double: [m * 2^e] with [|m| < 2^53] and
    [-1074 ≤ e ≤ 971]. *)
Definition binary64 (q : Qc) : Prop :=
  ∃ m e : Z,
    (Z.abs m < 2 ^ 53)%Z ∧ (-1074 ≤ e ≤ 971)%Z ∧ q = Qc_of_Z m * pow2 e.

(** The breakpoints of [plot] are doubles, and the program computes its
    sample points without rounding: [size] (line 33) is a double, the
    indices of [arange] are below [2^53], and every [start + k] (line 68) is
    a double. *)
Definition exact_grid (plot : Plot.t) : Prop :=
  (let '(a, b, c, d) := Plot.coords plot in
   binary64 a ∧ binary64 b ∧ binary64 c ∧ binary64 d) ∧
  binary64 (Plot.size plot) ∧
  Plot.size plot ≤ Qc_of_Z (2 ^ 53) ∧
  ∀ i : nat, (i < Z.to_nat (Qceiling (Plot.size plot)))%nat →
    binary64 (Plot.start plot + Qc_of_Z (Z.of_nat i)).

(** Every breakpoint of the layouts data is an integer that [float]
    converts exactly (line 155). *)
Definition exact_data
    (data : list (string * (Z * Z * list (string * (Z * Z * Z * Z)))))
  : Prop :=
  ∀ title start end_ plotsData plotTitle a b c d,
    (title, (start, end_, plotsData)) ∈ data →
    (plotTitle, (a, b, c, d)) ∈ plotsData →
    (Z.abs a ≤ 2 ^ 53 ∧ Z.abs b ≤ 2 ^ 53 ∧
     Z.abs c ≤ 2 ^ 53 ∧ Z.abs d ≤ 2 ^ 53)%Z.

(** Doubles on which the program overflows or rounds. *)
Definition huge_sorted : float * float * float * float :=
  (-0x1p+1023, 0x1.8p+1023, 0x1.8p+1023, 0x1.8p+1023)%float.
Definition coarse_grid : float * float * float * float :=
  (1e16, 10000000000000002, 10000000000000002, 10000000000000004)%float.

(** ** Rational arithmetic helpers *)

(** Linear goals over [Qc] are sent to [lra] over [Q]. *)
Ltac qc_to_q :=
  unfold Qcle, Qclt, Qcminus, Qcplus, Qcopp, Q2Qc in *; simpl this in *;
  rewrite ?Qred_correct in *.
Ltac qc_lra := qc_to_q; lra.

Lemma Qcdiv_nonneg (n d : Qc) : 0 ≤ n → 0 < d → 0 ≤ n / d.
Proof.
  intros Hn Hd. unfold Qcdiv. apply Qcmult_nonneg_nonneg; [done|].
  apply Qclt_le_weak, Qcinv_pos, Hd.
Qed.

Lemma Qcdiv_le_mono (n m d : Qc) : 0 < d → n ≤ m → n / d ≤ m / d.
Proof.
  intros Hd Hnm. unfold Qcdiv. apply Qcmult_le_compat_r; [done|].
  apply Qclt_le_weak, Qcinv_pos, Hd.
Qed.

Lemma Qcdiv_diag (d : Qc) : 0 < d → d / d = 1.
Proof.
  intros Hd. unfold Qcdiv. apply Qcmult_inv_r.
  intros ->. by apply (Qclt_not_eq 0 0).
Qed.

Lemma Qcdiv_le_1 (n d : Qc) : 0 < d → n ≤ d → n / d ≤ 1.
Proof.
  intros Hd Hn. rewrite <- (Qcdiv_diag d Hd). by apply Qcdiv_le_mono.
Qed.

Lemma Qcdiv_0_l (d : Qc) : 0 / d = 0.
Proof. unfold Qcdiv. apply Qcmult_0_l. Qed.

Lemma Qclt_minus_pos (x y : Qc) : x < y → 0 < y - x.
Proof. intros. qc_lra. Qed.

Lemma Qcle_minus_nonneg (x y : Qc) : x ≤ y → 0 ≤ y - x.
Proof. intros. qc_lra. Qed.

Lemma Qc_pos_ne_0 (d : Qc) : 0 < d → d ≠ 0.
Proof. intros Hd ->. by apply (Qclt_not_eq 0 0). Qed.

Lemma truediv_pos (n d : Qc) : 0 < d → truediv n d = Ok (Some (n / d)).
Proof.
  intros Hd. unfold truediv. case_decide; [|done].
  by destruct (Qc_pos_ne_0 d).
Qed.

(** ** Plot.membership *)

Lemma branch_view (l : string) (a b c d x : Qc) :
  branch_case a b c d x (Plot.branch_at (Plot.mk l (a, b, c, d)) x).
Proof.
  unfold Plot.branch_at; simpl.
  destruct (decide (d < x ∨ x < a)) as [Hout|Hin]; [by constructor|].
  assert (a ≤ x ∧ x ≤ d) as [Ha Hd].
  { split; apply Qcnot_lt_le; tauto. }
  destruct (decide (a ≤ x ∧ x < b)) as [[_ Hb]|Hnb]; [by constructor|].
  assert (b ≤ x) as Hb by (apply Qcnot_lt_le; tauto).
  destruct (decide (b ≤ x ∧ x ≤ c)) as [[_ Hc]|Hnc]; [by constructor|].
  assert (c < x) as Hc by (apply Qcnot_le_lt; tauto).
  rewrite decide_True by done. by constructor.
Qed.

(** [membership] in each branch, the divisions done. *)
Lemma membership_branch (l : string) (a b c d x : Qc) :
  Plot.membership (Plot.mk l (a, b, c, d)) x =
  Ok (Some match Plot.branch_at (Plot.mk l (a, b, c, d)) x with
           | Plot.Rising => (x - a) / (b - a)
           | Plot.Falling => (d - x) / (d - c)
           | Plot.Plateau => 1
           | _ => 0
           end).
Proof.
  unfold Plot.membership; simpl Plot.coords.
  destruct (branch_view l a b c d x) as [H|H1 H2 H3|H1 H2 H3 H4|H1 H2 H3 H4];
    try done.
  - apply truediv_pos, Qclt_minus_pos. by apply Qcle_lt_trans with x.
  - apply truediv_pos, Qclt_minus_pos. by apply Qclt_le_trans with x.
Qed.

Lemma membership_degree (plot : Plot.t) (x : Qc) :
  Plot.membership plot x = Ok (Some (degree plot x)).
Proof.
  unfold degree. destruct plot as [l [[[a b] c] d]].
  by rewrite membership_branch.
Qed.

Lemma degree_branch (l : string) (a b c d x : Qc) :
  degree (Plot.mk l (a, b, c, d)) x =
  match Plot.branch_at (Plot.mk l (a, b, c, d)) x with
  | Plot.Rising => (x - a) / (b - a)
  | Plot.Falling => (d - x) / (d - c)
  | Plot.Plateau => 1
  | _ => 0
  end.
Proof. unfold degree. by rewrite membership_branch. Qed.

Lemma degree_range (plot : Plot.t) (x : Qc) : 0 ≤ degree plot x ≤ 1.
Proof.
  destruct plot as [l [[[a b] c] d]]. rewrite degree_branch.
  destruct (branch_view l a b c d x) as [H|H1 H2 H3|H1 H2 H3 H4|H1 H2 H3 H4].
  - split; qc_lra.
  - split.
    + apply Qcdiv_nonneg; [by apply Qcle_minus_nonneg|].
      apply Qclt_minus_pos. by apply Qcle_lt_trans with x.
    + apply Qcdiv_le_1; [|qc_lra].
      apply Qclt_minus_pos. by apply Qcle_lt_trans with x.
  - split; qc_lra.
  - split.
    + apply Qcdiv_nonneg; [by apply Qcle_minus_nonneg|].
      apply Qclt_minus_pos. by apply Qclt_le_trans with x.
    + apply Qcdiv_le_1; [|qc_lra].
      apply Qclt_minus_pos. by apply Qclt_le_trans with x.
Qed.

Section Branches.

Variables (l : string) (a b c d x : Qc).
Let plot := Plot.mk l (a, b, c, d).

Lemma degree_outside : d < x ∨ x < a → degree plot x = 0.
Proof.
  intros Hout. unfold plot. rewrite degree_branch.
  destruct (branch_view l a b c d x); try done; destruct Hout; qc_lra.
Qed.

Lemma degree_rising :
  a ≤ x → x ≤ d → x < b → degree plot x = (x - a) / (b - a).
Proof.
  intros Ha Hd Hb. unfold plot. rewrite degree_branch.
  destruct (branch_view l a b c d x) as [[H|H]| | |]; try done; qc_lra.
Qed.

Lemma degree_plateau : a ≤ x → x ≤ d → b ≤ x → x ≤ c → degree plot x = 1.
Proof.
  intros Ha Hd Hb Hc. unfold plot. rewrite degree_branch.
  destruct (branch_view l a b c d x) as [[H|H]| | |]; try done; qc_lra.
Qed.

Lemma degree_falling :
  a ≤ x → x ≤ d → b ≤ x → c < x → degree plot x = (d - x) / (d - c).
Proof.
  intros Ha Hd Hb Hc. unfold plot. rewrite degree_branch.
  destruct (branch_view l a b c d x) as [[H|H]| | |]; try done; qc_lra.
Qed.

End Branches.

(** Closed equations between concrete rationals. *)
Ltac qc_eq := apply Qc_is_canon; vm_compute; reflexivity.
Ltac qc_decide := vm_compute; first [reflexivity | discriminate | done].

Lemma membership_eq (plot : Plot.t) (x y : Qc) :
  Plot.membership plot x = Ok (Some y) ↔ degree plot x = y.
Proof. rewrite membership_degree. split; [by intros [= ->]|by intros ->]. Qed.

(** ** Layout.create, key by key *)

Lemma keep_ge (old : pyfloat) (new : Qc) : new ≤ keep old new.
Proof.
  destruct old as [o|]; simpl; [|apply Qcle_refl].
  case_decide; [by apply Qclt_le_weak|apply Qcle_refl].
Qed.

Lemma keep_old_le (o new : Qc) : o ≤ keep (Some o) new.
Proof.
  simpl. case_decide; [apply Qcle_refl|by apply Qcnot_lt_le].
Qed.

Lemma keep_cases (old : pyfloat) (new : Qc) :
  keep old new = new ∨ old = Some (keep old new).
Proof. destruct old as [o|]; simpl; [|by left]. case_decide; auto. Qed.

Lemma keep_absorb (o new : Qc) : new ≤ o → keep (Some o) new = o.
Proof.
  intros Hle. simpl. case_decide as Hlt; [done|].
  apply Qcle_antisym; [done|by apply Qcnot_lt_le].
Qed.

Lemma keep_idemp (old : pyfloat) (new : Qc) :
  keep (Some (keep old new)) new = keep old new.
Proof. apply keep_absorb, keep_ge. Qed.

Lemma keep_comm (old : pyfloat) (y1 y2 : Qc) :
  keep (Some (keep old y1)) y2 = keep (Some (keep old y2)) y1.
Proof.
  destruct old as [o|]; simpl; repeat case_decide; try done;
    apply Qc_is_canon; qc_lra.
Qed.

Lemma get_Some (values : gmap Qc pyfloat) (x y : Qc) :
  Layout.get values x = Some y ↔ values !! x = Some (Some y).
Proof.
  unfold Layout.get. destruct (values !! x) as [[z|]|]; simpl; naive_solver.
Qed.

(** One pass through lines 72-78 always succeeds, and writes (or leaves)
    the greater number at [x]. *)
Lemma put_insert (values : gmap Qc pyfloat) (plot : Plot.t) (x : Qc) :
  Layout.put values plot x =
  Ok (<[x := Some (keep (Layout.get values x) (degree plot x))]> values).
Proof.
  unfold Layout.put. rewrite membership_degree. simpl.
  destruct (Layout.get values x) as [o|] eqn:Hget; [|done].
  simpl. case_bool_decide as Hlt.
  - rewrite decide_True by done. f_equal. symmetry. apply insert_id.
    by apply get_Some.
  - by rewrite decide_False.
Qed.

Lemma put_all_lookup (plot : Plot.t) (xs : list Qc)
    (values : gmap Qc pyfloat) :
  ∃ values', Layout.put_all values plot xs = Ok values' ∧
    ∀ k, values' !! k =
         if decide (k ∈ xs)
         then Some (Some (keep (mjoin (values !! k)) (degree plot k)))
         else values !! k.
Proof.
  revert values. induction xs as [|x xs IH]; intros values.
  { exists values. split; [done|]. intros k.
    rewrite decide_False; [done|apply not_elem_of_nil]. }
  cbn [Layout.put_all]. rewrite put_insert.
  destruct (IH (<[x := Some (keep (Layout.get values x) (degree plot x))]>
                  values)) as (values' & Hrun & Hlookup).
  exists values'. split; [exact Hrun|]. intros k. rewrite Hlookup.
  destruct (decide (k = x)) as [->|Hne].
  - rewrite lookup_insert_eq.
    rewrite (decide_True (P := x ∈ x :: xs)) by (by left).
    case_decide; [|done]. unfold Layout.get. cbn [mjoin option_join].
    by rewrite keep_idemp.
  - rewrite lookup_insert_ne by done.
    destruct (decide (k ∈ xs)) as [Hin|Hnin].
    + rewrite decide_True; [done|by right].
    + rewrite decide_False; [done|]. by intros [?|?]%elem_of_cons.
Qed.

(** The whole loop always succeeds, and its effect on each key is
    [entry_after]. *)
Lemma create_order_lookup (order : list Plot.t) (values : gmap Qc pyfloat) :
  ∃ values', Layout.create_order values order = Ok values' ∧
    ∀ k, values' !! k = entry_after order k (values !! k).
Proof.
  revert values. induction order as [|plot order IH]; intros values; simpl.
  { by exists values. }
  destruct (put_all_lookup plot (Plot.xValues plot) values)
    as (values1 & -> & H1). simpl.
  destruct (IH values1) as (values' & -> & H').
  exists values'. split; [done|]. intros k.
  rewrite H', H1. done.
Qed.

Lemma sampled_comm (k : Qc) (entry : option pyfloat) (p q : Plot.t) :
  sampled k (sampled k entry p) q = sampled k (sampled k entry q) p.
Proof.
  unfold sampled. repeat case_decide; try done. cbn [mjoin option_join].
  by rewrite keep_comm.
Qed.

Lemma entry_after_perm (k : Qc) (order1 order2 : list Plot.t) :
  order1 ≡ₚ order2 →
  ∀ entry, entry_after order1 k entry = entry_after order2 k entry.
Proof.
  unfold entry_after.
  induction 1 as [|p l1 l2 _ IH|p q l|l1 l2 l3 _ IH1 _ IH2]; intros entry;
    simpl.
  - done.
  - apply IH.
  - by rewrite sampled_comm.
  - by rewrite IH1.
Qed.

(** Every plot of the order that samples [k] is below the final entry. *)
Lemma entry_after_upper (k : Qc) (order : list Plot.t) (plot : Plot.t) :
  plot ∈ order → k ∈ Plot.xValues plot →
  ∀ entry, ∃ v, entry_after order k entry = Some (Some v) ∧
                degree plot k ≤ v.
Proof.
  intros Hin Hk entry.
  assert (Hmono : ∀ rest o, ∃ v,
            entry_after rest k (Some (Some o)) = Some (Some v) ∧ o ≤ v).
  { induction rest as [|q rest IH]; intros o; simpl.
    { exists o. split; [done|apply Qcle_refl]. }
    unfold entry_after; simpl. unfold sampled at 2. case_decide.
    - simpl. destruct (IH (keep (Some o) (degree q k))) as (v & Hv & Hle).
      exists v. split; [done|].
      apply Qcle_trans with (keep (Some o) (degree q k)); [|done].
      apply keep_old_le.
    - apply IH. }
  revert entry. induction order as [|q order IH]; intros entry.
  { by apply elem_of_nil in Hin. }
  apply elem_of_cons in Hin as [<-|Hin].
  - unfold entry_after; simpl. unfold sampled at 2.
    rewrite decide_True by done.
    destruct (Hmono order (keep (mjoin entry) (degree plot k)))
      as (v & Hv & Hle).
    exists v. split; [done|].
    apply Qcle_trans with (keep (mjoin entry) (degree plot k)); [|done].
    apply keep_ge.
  - apply (IH Hin).
Qed.

(** The final entry is the initial one or the degree of a plot of the
    order that samples [k]. *)
Lemma entry_after_attained (k : Qc) (order : list Plot.t)
    (entry : option pyfloat) :
  entry_after order k entry = entry ∨
  ∃ plot, plot ∈ order ∧ k ∈ Plot.xValues plot ∧
          entry_after order k entry = Some (Some (degree plot k)).
Proof.
  revert entry. induction order as [|q order IH]; intros entry; [by left|].
  unfold entry_after; simpl.
  destruct (IH (sampled k entry q)) as [Hsame|(plot & Hin & Hk & Hv)].
  - unfold entry_after in Hsame. rewrite Hsame. unfold sampled.
    case_decide as Hk; [|by left].
    destruct (keep_cases (mjoin entry) (degree q k)) as [Hnew|Hold].
    + right. exists q. rewrite Hnew. split; [by left|done].
    + left. destruct entry as [[o|]|]; simpl in *; congruence.
  - right. exists plot. split; [by right|done].
Qed.

(** Sampling again plots that are already below the entry changes
    nothing. *)
Lemma entry_after_fixed (k : Qc) (order : list Plot.t) (v : Qc) :
  (∀ plot, plot ∈ order → k ∈ Plot.xValues plot → degree plot k ≤ v) →
  entry_after order k (Some (Some v)) = Some (Some v).
Proof.
  induction order as [|q order IH]; intros Hle; [done|].
  unfold entry_after; simpl. unfold sampled at 2. case_decide as Hk.
  - simpl mjoin. rewrite keep_absorb by (apply Hle; [by left|done]).
    apply IH. intros plot Hin. apply Hle. by right.
  - apply IH. intros plot Hin. apply Hle. by right.
Qed.

(** A key that no plot samples keeps its entry. *)
Lemma entry_after_untouched (k : Qc) (order : list Plot.t)
    (entry : option pyfloat) :
  (∀ plot, plot ∈ order → k ∉ Plot.xValues plot) →
  entry_after order k entry = entry.
Proof.
  induction order as [|q order IH]; intros Hno; [done|].
  unfold entry_after; simpl. unfold sampled at 2.
  rewrite decide_False by (apply Hno; by left).
  apply IH. intros plot Hin. apply Hno. by right.
Qed.

(** ** The sample points *)

Lemma Qc_of_Z_plus (m n : Z) : Qc_of_Z m + Qc_of_Z n = Qc_of_Z (m + n).
Proof.
  apply Qc_is_canon. unfold Qcplus, Q2Qc; simpl this.
  rewrite Qred_correct. by rewrite inject_Z_plus.
Qed.

Lemma Qc_of_Z_minus (m n : Z) : Qc_of_Z m - Qc_of_Z n = Qc_of_Z (m - n).
Proof.
  apply Qc_is_canon. unfold Qcminus, Qcplus, Qcopp, Q2Qc; simpl this.
  rewrite !Qred_correct. unfold Z.sub.
  by rewrite inject_Z_plus, inject_Z_opp.
Qed.

Lemma Qc_of_Z_le (m n : Z) : Qc_of_Z m ≤ Qc_of_Z n ↔ (m ≤ n)%Z.
Proof. unfold Qcle; simpl this. by rewrite <- Zle_Qle. Qed.

Lemma Qc_of_Z_lt (m n : Z) : Qc_of_Z m < Qc_of_Z n ↔ (m < n)%Z.
Proof. unfold Qclt; simpl this. by rewrite <- Zlt_Qlt. Qed.

Lemma Qc_of_Z_inj (m n : Z) : Qc_of_Z m = Qc_of_Z n → m = n.
Proof.
  intros H. apply (f_equal this) in H. simpl in H.
  by apply (f_equal Qnum) in H.
Qed.

Lemma Qceiling_of_Z (n : Z) : Qceiling (Qc_of_Z n) = n.
Proof. simpl this. apply Qceiling_Z. Qed.

Lemma length_arange (stop : Qc) :
  length (arange stop) = Z.to_nat (Qceiling stop).
Proof. unfold arange. by rewrite length_fmap, length_seq. Qed.

Lemma elem_of_arange (stop k : Qc) :
  k ∈ arange stop ↔
  ∃ i : nat, (i < Z.to_nat (Qceiling stop))%nat ∧ k = Qc_of_Z (Z.of_nat i).
Proof.
  unfold arange. rewrite list_elem_of_fmap. split.
  - intros (i & -> & Hi). exists i. split; [|done].
    apply elem_of_seq in Hi. lia.
  - intros (i & Hi & ->). exists i. split; [done|].
    apply elem_of_seq. lia.
Qed.

(** Every point of [arange stop] is a natural number below [stop]. *)
Lemma arange_below (stop k : Qc) : k ∈ arange stop → 0 ≤ k ∧ k < stop.
Proof.
  intros (i & Hi & ->)%elem_of_arange. split.
  - unfold Qcle; simpl this.
    change (inject_Z 0 <= inject_Z (Z.of_nat i))%Q. rewrite <- Zle_Qle. lia.
  - unfold Qclt; simpl this.
    apply Qle_lt_trans with (inject_Z (Qceiling stop - 1)).
    + rewrite <- Zle_Qle. lia.
    + apply Qceiling_lt.
Qed.

Lemma length_xValues (plot : Plot.t) :
  length (Plot.xValues plot) = Z.to_nat (Qceiling (Plot.size plot)).
Proof. unfold Plot.xValues. by rewrite length_fmap, length_arange. Qed.

Lemma xValues_lookup (plot : Plot.t) (i : nat) :
  (i < Z.to_nat (Qceiling (Plot.size plot)))%nat →
  Plot.xValues plot !! i =
  Some (Plot.start plot + Qc_of_Z (Z.of_nat i)).
Proof.
  intros Hi. unfold Plot.xValues, arange.
  rewrite !list_lookup_fmap, lookup_seq_lt by done. done.
Qed.

Lemma elem_of_xValues (plot : Plot.t) (x : Qc) :
  x ∈ Plot.xValues plot ↔
  ∃ i : nat, (i < Z.to_nat (Qceiling (Plot.size plot)))%nat ∧
             x = Plot.start plot + Qc_of_Z (Z.of_nat i).
Proof.
  unfold Plot.xValues. rewrite list_elem_of_fmap. split.
  - intros (k & -> & (i & Hi & ->)%elem_of_arange). by exists i.
  - intros (i & Hi & ->). exists (Qc_of_Z (Z.of_nat i)). split; [done|].
    apply elem_of_arange. by exists i.
Qed.

Lemma xValues_range (plot : Plot.t) (x : Qc) :
  x ∈ Plot.xValues plot →
  Plot.start plot ≤ x ∧ x < Plot.start plot + Plot.size plot.
Proof.
  unfold Plot.xValues. rewrite list_elem_of_fmap.
  intros (k & -> & [H0 Hlt]%arange_below). split; qc_lra.
Qed.

(** [start], [end] and [size] for breakpoints in ascending order. *)
Lemma start_end_sorted (l : string) (a b c d : Qc) :
  a ≤ b → b ≤ c → c ≤ d →
  Plot.start (Plot.mk l (a, b, c, d)) = a ∧
  Plot.end_ (Plot.mk l (a, b, c, d)) = d.
Proof.
  intros Hab Hbc Hcd. split.
  - unfold Plot.start, py_min; simpl.
    rewrite (decide_False (P := b < a)) by (intros ?; qc_lra).
    rewrite (decide_False (P := c < a)) by (intros ?; qc_lra).
    rewrite decide_False; [done|intros ?; qc_lra].
  - unfold Plot.end_, py_max; simpl.
    destruct (decide (a < b)) as [H1|H1].
    + destruct (decide (b < c)) as [H2|H2].
      * destruct (decide (c < d)) as [H3|H3]; [done|].
        apply Qcle_antisym; [done|by apply Qcnot_lt_le].
      * destruct (decide (b < d)) as [H3|H3]; [done|].
        apply Qcle_antisym; [qc_lra|by apply Qcnot_lt_le].
    + destruct (decide (a < c)) as [H2|H2].
      * destruct (decide (c < d)) as [H3|H3]; [done|].
        apply Qcle_antisym; [done|by apply Qcnot_lt_le].
      * destruct (decide (a < d)) as [H3|H3]; [done|].
        apply Qcle_antisym; [qc_lra|by apply Qcnot_lt_le].
Qed.

(** With integer breakpoints the sample points are the integers of
    [[a, d)]. *)
Lemma elem_of_xValues_integer (l : string) (a b c d : Z) (x : Qc) :
  (a ≤ b)%Z → (b ≤ c)%Z → (c ≤ d)%Z →
  x ∈ Plot.xValues (Plot.mk l (Figure.floats (a, b, c, d))) ↔
  ∃ n : Z, (a ≤ n < d)%Z ∧ x = Qc_of_Z n.
Proof.
  intros Hab Hbc Hcd. rewrite elem_of_xValues. unfold Plot.size.
  unfold Figure.floats.
  destruct (start_end_sorted l (Qc_of_Z a) (Qc_of_Z b) (Qc_of_Z c) (Qc_of_Z d))
    as [-> ->]; [by apply Qc_of_Z_le..|].
  rewrite Qc_of_Z_minus, Qceiling_of_Z. split.
  - intros (i & Hi & ->). exists (a + Z.of_nat i)%Z.
    rewrite Qc_of_Z_plus. split; [lia|done].
  - intros (n & Hn & ->). exists (Z.to_nat (n - a)). split; [lia|].
    rewrite Qc_of_Z_plus. f_equal. lia.
Qed.

(** ** Layout.create *)

Lemma creates_lookup (self self' : Layout.t) (order : list Plot.t) :
  Layout.creates self order self' →
  Layout.plots self' = Layout.plots self ∧
  Layout.start self' = Layout.start self ∧
  Layout.end_ self' = Layout.end_ self ∧
  ∀ k, Layout.values self' !! k =
       entry_after order k (Layout.values self !! k).
Proof.
  intros (_ & values' & Hrun & ->). simpl. repeat split.
  destruct (create_order_lookup order (Layout.values self))
    as (values1 & Hrun1 & Hlookup).
  rewrite Hrun in Hrun1. by injection Hrun1 as ->.
Qed.

(** Every enumeration of the plots is a run, and it runs to the end. *)
Lemma creates_total (self : Layout.t) (order : list Plot.t) :
  order ≡ₚ elements (Layout.plots self) →
  ∃ self', Layout.creates self order self'.
Proof.
  intros Hperm.
  destruct (create_order_lookup order (Layout.values self))
    as (values' & Hrun & _).
  eexists. split; [done|]. exists values'. split; [exact Hrun|done].
Qed.

Lemma create_creates (self : Layout.t) :
  ∃ self', Layout.create self = Ok self' ∧
           Layout.creates self (elements (Layout.plots self)) self'.
Proof.
  unfold Layout.create.
  destruct (create_order_lookup (elements (Layout.plots self))
              (Layout.values self)) as (values' & Hrun & _).
  rewrite Hrun. eexists. split; [done|].
  split; [done|]. exists values'. split; [exact Hrun|done].
Qed.

Lemma elem_of_order (self : Layout.t) (order : list Plot.t) (f : Plot.t) :
  order ≡ₚ elements (Layout.plots self) →
  f ∈ order ↔ f ∈ Layout.plots self.
Proof. intros ->. apply elem_of_elements. Qed.

(** Starting from an empty entry, what is left at [k] is the greatest
    degree among the plots that sample [k]. *)
Lemma entry_after_max (k v : Qc) (order : list Plot.t) :
  mjoin (entry_after order k None) = Some v →
  is_max_at (λ f, f ∈ order ∧ k ∈ Plot.xValues f) k v.
Proof.
  intros Hv.
  destruct (entry_after_attained k order None) as [Hnone|(f & Hin & Hk & Hf)].
  { by rewrite Hnone in Hv. }
  rewrite Hf in Hv. injection Hv as <-. split.
  - exists f. split; [done|]. apply membership_degree.
  - intros g y [Hg Hkg] Hy. apply membership_eq in Hy as <-.
    destruct (entry_after_upper k order g Hg Hkg None) as (v & Hv & Hle).
    rewrite Hf in Hv. by injection Hv as <-.
Qed.

(** With integer breakpoints [a ≤ b ≤ c < d], a plot is [0] at every
    integer it does not sample. *)
Lemma degree_off_grid_integer (f : Plot.t) (n : Z) :
  integer_trapezoid f → Qc_of_Z n ∉ Plot.xValues f →
  degree f (Qc_of_Z n) = 0.
Proof.
  destruct f as [l cs]. intros (a & b & c & d & Hcs & Hord) Hoff.
  cbn [Plot.coords] in Hcs. subst cs.
  rewrite elem_of_xValues_integer in Hoff by lia.
  assert (Hn : (n < a ∨ d < n ∨ n = d)%Z).
  { destruct (decide (a ≤ n < d)%Z); [|lia]. destruct Hoff. by exists n. }
  unfold Figure.floats.
  destruct Hn as [Hn|[Hn|Hn]]; [| |subst n].
  - apply degree_outside. right. by apply Qc_of_Z_lt.
  - apply degree_outside. left. by apply Qc_of_Z_lt.
  - rewrite degree_falling.
    + replace (Qc_of_Z d - Qc_of_Z d) with 0 by ring. apply Qcdiv_0_l.
    + apply Qc_of_Z_le. lia.
    + apply Qcle_refl.
    + apply Qc_of_Z_le. lia.
    + apply Qc_of_Z_lt. lia.
Qed.

Lemma grid_point_integer (f : Plot.t) (x : Qc) :
  integer_trapezoid f → x ∈ Plot.xValues f → ∃ n : Z, x = Qc_of_Z n.
Proof.
  destruct f as [l cs]. intros (a & b & c & d & Hcs & Hord) Hx.
  cbn [Plot.coords] in Hcs. subst cs.
  rewrite elem_of_xValues_integer in Hx by lia.
  destruct Hx as (n & _ & ->). by exists n.
Qed.

Lemma py_min_le_max (t : Qc * Qc * Qc * Qc) : py_min t ≤ py_max t.
Proof.
  destruct t as [[[a b] c] d]. apply Qcle_trans with a.
  - unfold py_min; simpl. repeat case_decide; qc_lra.
  - unfold py_max; simpl. repeat case_decide; qc_lra.
Qed.

Lemma size_nonneg (plot : Plot.t) : 0 ≤ Plot.size plot.
Proof.
  unfold Plot.size, Plot.end_, Plot.start.
  apply Qcle_minus_nonneg, py_min_le_max.
Qed.

Lemma elements_add (self : Layout.t) (plot : Plot.t) :
  plot ∉ Layout.plots self →
  elements (Layout.plots (Layout.add self plot)) ≡ₚ
  plot :: elements (Layout.plots self).
Proof. intros Hnew. simpl. by apply elements_union_singleton. Qed.

Lemma elements_init (title : string) (start end_ : Z) :
  elements (Layout.plots (Layout.init title start end_)) = [].
Proof. apply elements_empty. Qed.

Lemma option_Qc_eq (o : option Qc) (q : Qc) :
  this <$> o = Some (this q) → o = Some q.
Proof.
  destruct o as [r|]; simpl; [|done]. intros [= H]. f_equal.
  apply Qc_is_canon. by rewrite H.
Qed.

Lemma pair_order (title : string) (start end_ : Z) (p q : Plot.t) :
  p ≠ q →
  [q; p] ≡ₚ
  elements (Layout.plots
              (Layout.add (Layout.add (Layout.init title start end_) p) q)).
Proof.
  intros Hne. rewrite elements_add.
  - apply Permutation_skip. rewrite elements_add.
    + by rewrite elements_init.
    + apply not_elem_of_empty.
  - cbn [Layout.add Layout.init Layout.plots].
    rewrite elem_of_union, elem_of_singleton.
    intros [->|[]%not_elem_of_empty]. by apply Hne.
Qed.

Lemma two_plots_order :
  [shifted_plot; wide_plot] ≡ₚ elements (Layout.plots two_plots).
Proof. apply pair_order. intros [=]. Qed.

(** Integer breakpoints are not enough when [c = d]: [edge_plot] is sampled
    at [1, 2] only, and the table has [3/4] at [x = 3], from [ramp_plot],
    while [membership] of [edge_plot] at [3] is [1]. *)
Lemma table_misses_vertical_edge :
  sorted ramp_plot ∧ sorted edge_plot ∧
  ∃ self', Layout.create edge_plots = Ok self' ∧
    Layout.get (Layout.values self') (Qc_of_Z 3) = Some (Q2Qc (3 # 4)) ∧
    Plot.membership edge_plot (Qc_of_Z 3) = Ok (Some 1).
Proof.
  split; [repeat split; qc_decide|]. split; [repeat split; qc_decide|].
  destruct (create_creates edge_plots) as (self' & Hcreate & Hrun).
  exists self'. split; [exact Hcreate|].
  destruct (creates_lookup _ _ _ Hrun) as (_ & _ & _ & Hlookup).
  split.
  - unfold Layout.get. rewrite Hlookup.
    rewrite <- (entry_after_perm _ [edge_plot; ramp_plot]).
    + apply option_Qc_eq. vm_compute. reflexivity.
    + apply pair_order. intros [=].
  - apply membership_eq. qc_eq.
Qed.

(** ** Figure *)

Lemma integer_sampled (l : string) (a b c d n : Z) :
  (a ≤ b)%Z → (b ≤ c)%Z → (c ≤ d)%Z →
  Qc_of_Z n ∈ Plot.xValues (Plot.mk l (Figure.floats (a, b, c, d))) ↔
  (a ≤ n < d)%Z.
Proof.
  intros Hab Hbc Hcd. rewrite elem_of_xValues_integer by done. split.
  - by intros (m & Hm & <-%Qc_of_Z_inj).
  - intros Hn. by exists n.
Qed.

Lemma elem_of_water_layout (translation : gmap string string) (f : Plot.t) :
  f ∈ Layout.plots (water_layout translation) ↔
  f = Plot.mk (translate translation "High temperature")
              (Figure.floats (78, 83, 105, 106)%Z) ∨
  f = Plot.mk (translate translation "Medium temperature")
              (Figure.floats (55, 60, 79, 83)%Z) ∨
  f = Plot.mk (translate translation "Low temperature")
              (Figure.floats (39, 40, 57, 65)%Z).
Proof.
  unfold water_layout, Figure.layout_of. cbn [foldl Layout.add Layout.plots].
  rewrite !elem_of_union, !elem_of_singleton.
  split; [|tauto]. intros [?|[?|[?|[]%not_elem_of_empty]]]; tauto.
Qed.

(** In the created water-temperature layout the key [39] holds [0]: only
    the low trapezoid samples it. *)
Lemma water_39 (translation : gmap string string) (order : list Plot.t)
    (water : Layout.t) :
  Layout.creates (water_layout translation) order water →
  Layout.get (Layout.values water) (Qc_of_Z 39) = Some 0.
Proof.
  intros Hrun.
  destruct (creates_lookup _ _ _ Hrun) as (_ & _ & _ & Hlookup).
  destruct Hrun as [Hperm _].
  unfold Layout.get. rewrite Hlookup.
  change (Layout.values (water_layout translation)) with (∅ : gmap Qc pyfloat).
  rewrite lookup_empty.
  set (low := Plot.mk (translate translation "Low temperature")
                      (Figure.floats (39, 40, 57, 65)%Z)).
  assert (Hlow : low ∈ order).
  { apply (elem_of_order _ _ _ Hperm), elem_of_water_layout. tauto. }
  assert (Hk : Qc_of_Z 39 ∈ Plot.xValues low).
  { apply integer_sampled; lia. }
  destruct (entry_after_upper _ order low Hlow Hk None) as (v & Hv & _).
  destruct (entry_after_attained (Qc_of_Z 39) order None)
    as [Hnone|(f & Hf & Hkf & Hvf)].
  { by rewrite Hnone in Hv. }
  rewrite Hvf. simpl. f_equal.
  apply (elem_of_order _ _ _ Hperm), elem_of_water_layout in Hf.
  destruct Hf as [Hf|[Hf|Hf]]; subst f.
  - apply integer_sampled in Hkf; lia.
  - apply integer_sampled in Hkf; lia.
  - apply Qc_is_canon. by vm_compute.
Qed.

Lemma init_water (translation : gmap string string) :
  ∃ layouts water,
    Figure.init translation = Ok layouts ∧
    layouts !! "Water Temperature"%string = Some water ∧
    Layout.creates (water_layout translation)
      (elements (Layout.plots (water_layout translation))) water.
Proof.
  unfold Figure.init, Figure._LAYOUTS_DATA. cbn [Figure.layouts_of].
  destruct (create_creates
              (Figure.layout_of translation "Square Footage"
                 (200, 1000,
                  [ ("Low square"%string, (199, 200, 450, 510));
                    ("Medium square"%string, (450, 480, 720, 780));
                    ("Big square"%string, (710, 750, 1000, 1001)) ])%Z))
    as (square & -> & _).
  cbn [mbind result_bind].
  destruct (create_creates
              (Figure.layout_of translation "Street Temperature"
                 (-30, 30,
                  [ ("Low temperature"%string, (-31, -30, 2, 6));
                    ("Medium temperature"%string, (1, 5, 18, 21));
                    ("High temperature"%string, (20, 23, 30, 32)) ])%Z))
    as (street & -> & _).
  cbn [mbind result_bind].
  destruct (create_creates (water_layout translation))
    as (water & Hcreate & Hrun).
  unfold water_layout in Hcreate at 1. rewrite Hcreate.
  cbn [mbind result_bind].
  eexists _, water. split; [done|]. split; [|exact Hrun].
  apply lookup_insert_eq.
Qed.

(** Two enumerations of the plots leave the same layout. *)
Lemma creates_any_order (self : Layout.t) (order1 order2 : list Plot.t) :
  order1 ≡ₚ elements (Layout.plots self) →
  order2 ≡ₚ elements (Layout.plots self) →
  ∃ self', Layout.creates self order1 self' ∧
           Layout.creates self order2 self'.
Proof.
  intros H1 H2.
  destruct (create_order_lookup order1 (Layout.values self))
    as (values1 & Hrun1 & Hlookup1).
  destruct (create_order_lookup order2 (Layout.values self))
    as (values2 & Hrun2 & Hlookup2).
  assert (values1 = values2) as <-.
  { apply map_eq. intros k. rewrite Hlookup1, Hlookup2.
    apply entry_after_perm. by rewrite H1, H2. }
  eexists. split.
  - split; [exact H1|]. exists values1. split; [exact Hrun1|reflexivity].
  - split; [exact H2|]. exists values1. split; [exact Hrun2|reflexivity].
Qed.

Lemma creates_functional (self s1 s2 : Layout.t) (order : list Plot.t) :
  Layout.creates self order s1 → Layout.creates self order s2 → s1 = s2.
Proof.
  intros (_ & v1 & Hv1 & ->) (_ & v2 & Hv2 & ->).
  rewrite Hv1 in Hv2. by injection Hv2 as ->.
Qed.

(** A second run over a created layout changes nothing. *)
Lemma creates_again (self self' : Layout.t) (order1 order2 : list Plot.t) :
  Layout.creates self order1 self' →
  order2 ≡ₚ elements (Layout.plots self) →
  Layout.creates self' order2 self'.
Proof.
  intros Hrun H2.
  destruct (creates_lookup _ _ _ Hrun) as (Hplots & _ & _ & Hlookup).
  destruct Hrun as [H1 _].
  destruct (create_order_lookup order2 (Layout.values self'))
    as (values2 & Hrun2 & Hlookup2).
  split; [by rewrite Hplots|]. exists values2. split; [exact Hrun2|].
  assert (values2 = Layout.values self') as ->; [|by destruct self'].
  apply map_eq. intros k. rewrite Hlookup2.
  destruct (decide (Exists (λ f, k ∈ Plot.xValues f) order1))
    as [(f & Hf & Hk)%Exists_exists|Hnone].
  - destruct (entry_after_upper k order1 f Hf Hk (Layout.values self !! k))
      as (v & Hv & _).
    rewrite Hlookup, Hv. apply entry_after_fixed. intros g Hg Hkg.
    assert (Hg1 : g ∈ order1) by (by rewrite H1, <- H2).
    destruct (entry_after_upper k order1 g Hg1 Hkg (Layout.values self !! k))
      as (w & Hw & Hle).
    rewrite Hv in Hw. by injection Hw as <-.
  - apply entry_after_untouched. intros g Hg Hkg.
    apply Hnone, Exists_exists. exists g.
    split; [by rewrite H1, <- H2|done].
Qed.

(** ** The exact model and the doubles *)

Lemma pow2_0 : pow2 0 = 1.
Proof. by apply Qc_is_canon. Qed.

Lemma binary64_of_Z (n : Z) : (Z.abs n < 2 ^ 53)%Z → binary64 (Qc_of_Z n).
Proof.
  intros Hn. exists n, 0%Z. split; [exact Hn|]. split; [lia|].
  rewrite pow2_0. ring.
Qed.

(** Integer breakpoints of moderate size make an exact grid. *)
Lemma exact_grid_integer (l : string) (a b c d : Z) :
  (a ≤ b)%Z → (b ≤ c)%Z → (c ≤ d)%Z →
  (- 2 ^ 51 ≤ a)%Z → (d ≤ 2 ^ 51)%Z →
  exact_grid (Plot.mk l (Figure.floats (a, b, c, d))).
Proof.
  intros Hab Hbc Hcd Ha Hd.
  assert (H51 : (2 ^ 51 = 2251799813685248)%Z) by reflexivity.
  assert (H53 : (2 ^ 53 = 9007199254740992)%Z) by reflexivity.
  destruct (start_end_sorted l (Qc_of_Z a) (Qc_of_Z b) (Qc_of_Z c) (Qc_of_Z d))
    as [Hs He]; [by apply Qc_of_Z_le..|].
  unfold exact_grid, Plot.size. unfold Figure.floats. cbn [Plot.coords].
  rewrite Hs, He, Qc_of_Z_minus, Qceiling_of_Z.
  split; [|split; [|split]].
  - repeat split; apply binary64_of_Z; lia.
  - apply binary64_of_Z. lia.
  - apply Qc_of_Z_le. lia.
  - intros i Hi. rewrite Qc_of_Z_plus. apply binary64_of_Z. lia.
Qed.

Lemma exact_grid_low_water : exact_grid low_water.
Proof. apply exact_grid_integer; lia. Qed.

(** The breakpoints [(1/2, 1, 2, 3)] make an exact grid too. *)
Lemma exact_grid_half_plot : exact_grid half_plot.
Proof.
  assert (Hn : Z.to_nat (Qceiling (Plot.size half_plot)) = 3%nat)
    by (by vm_compute).
  unfold exact_grid. rewrite Hn. split; [|split; [|split]].
  - cbn [half_plot Plot.coords]. repeat split.
    + exists 1%Z, (-1)%Z. split; [done|]. split; [lia|qc_eq].
    + exists 1%Z, 0%Z. split; [done|]. split; [lia|qc_eq].
    + exists 1%Z, 1%Z. split; [done|]. split; [lia|qc_eq].
    + exists 3%Z, 0%Z. split; [done|]. split; [lia|qc_eq].
  - exists 5%Z, (-1)%Z. split; [done|]. split; [lia|qc_eq].
  - qc_decide.
  - intros i Hi. destruct i as [|[|[|i]]]; [| | |lia].
    + exists 1%Z, (-1)%Z. split; [done|]. split; [lia|qc_eq].
    + exists 3%Z, (-1)%Z. split; [done|]. split; [lia|qc_eq].
    + exists 5%Z, (-1)%Z. split; [done|]. split; [lia|qc_eq].
Qed.

(** Without the bound of [DBL_MAX]: on the doubles
    [(-2^1023, 1.5 * 2^1023, 1.5 * 2^1023, 1.5 * 2^1023)], in ascending
    order, [x - a] and [b - a] both overflow at [x = 2^1023] and the rising
    ramp is [nan]. *)
Lemma membership64_overflow :
  Plot64.membership huge_sorted 0x1p+1023%float = Ok (Some nan).
Proof. by vm_compute. Qed.

(** Without [exact_grid]: above [2^53] the additions of line 68 round, and
    the doubles [(1e16, 1e16 + 2, 1e16 + 2, 1e16 + 4)] are sampled at
    [1e16, 1e16, 1e16 + 2, 1e16 + 4]. *)
Lemma xValues64_rounds :
  Plot64.size coarse_grid = 4%float ∧
  Plot64.xValues coarse_grid =
  [1e16; 1e16; 10000000000000002; 10000000000000004]%float.
Proof. split; by vm_compute. Qed.

(** With an exact grid the doubles are the points of the exact model:
    [(1/2, 1, 2, 3)] is sampled at [1/2, 3/2, 5/2]. *)
Lemma xValues64_half :
  Plot64.xValues (0.5, 1, 2, 3)%float = [0.5; 1.5; 2.5]%float.
Proof. by vm_compute. Qed.

(** ** The claims about [Plot] *)

(** C2 (as amended).  For breakpoints [a ≤ b ≤ c ≤ d] whose differences
    [b - a] and [d - c] do not overflow (they are at most [DBL_MAX]):
    [membership] is [0] below [a] and above [d]; it is [1] at [b] and at
    [c]; at [a] it is [0] when [a < b] and [1] when [a = b]; at [d] it is [0]
    when [c < d] and [1] when [c = d]; it is non-decreasing on [[a,b]] and
    non-increasing on [[c,d]]. *)
Theorem membership_sorted_shape (l : string) (a b c d : Qc) :
  a ≤ b → b ≤ c → c ≤ d →
  b - a ≤ DBL_MAX → d - c ≤ DBL_MAX →
  let plot := Plot.mk l (a, b, c, d) in
  (∀ x, x < a ∨ d < x → Plot.membership plot x = Ok (Some 0)) ∧
  Plot.membership plot b = Ok (Some 1) ∧
  Plot.membership plot c = Ok (Some 1) ∧
  (a < b → Plot.membership plot a = Ok (Some 0)) ∧
  (a = b → Plot.membership plot a = Ok (Some 1)) ∧
  (c < d → Plot.membership plot d = Ok (Some 0)) ∧
  (c = d → Plot.membership plot d = Ok (Some 1)) ∧
  (∀ x y, a ≤ x → x ≤ y → y ≤ b →
     ∃ vx vy, Plot.membership plot x = Ok (Some vx) ∧
              Plot.membership plot y = Ok (Some vy) ∧ vx ≤ vy) ∧
  (∀ x y, c ≤ x → x ≤ y → y ≤ d →
     ∃ vx vy, Plot.membership plot x = Ok (Some vx) ∧
              Plot.membership plot y = Ok (Some vy) ∧ vy ≤ vx).
Proof.
  intros Hab Hbc Hcd _ _ plot.
  assert (Hplateau : ∀ x, b ≤ x → x ≤ c → degree plot x = 1).
  { intros x Hb Hc. apply degree_plateau; [qc_lra|qc_lra|done|done]. }
  repeat split.
  - intros x Hx. apply membership_eq, degree_outside. tauto.
  - apply membership_eq, Hplateau; [apply Qcle_refl|done].
  - apply membership_eq, Hplateau; [done|apply Qcle_refl].
  - intros Hlt. apply membership_eq. unfold plot.
    rewrite degree_rising; [|apply Qcle_refl|qc_lra|done].
    replace (a - a) with 0 by ring. apply Qcdiv_0_l.
  - intros ->. apply membership_eq, Hplateau; [apply Qcle_refl|done].
  - intros Hlt. apply membership_eq. unfold plot.
    rewrite degree_falling; [|qc_lra|apply Qcle_refl|qc_lra|done].
    replace (d - d) with 0 by ring. apply Qcdiv_0_l.
  - intros ->. apply membership_eq, Hplateau; [done|apply Qcle_refl].
  - intros x y Hax Hxy Hyb.
    exists (degree plot x), (degree plot y).
    split; [apply membership_degree|]. split; [apply membership_degree|].
    destruct (Qclt_le_dec y b) as [Hlt|Hge].
    + unfold plot. rewrite !degree_rising by qc_lra.
      apply Qcdiv_le_mono; qc_lra.
    + rewrite (Hplateau y) by qc_lra. apply degree_range.
  - intros x y Hcx Hxy Hyd.
    exists (degree plot x), (degree plot y).
    split; [apply membership_degree|]. split; [apply membership_degree|].
    destruct (Qclt_le_dec c x) as [Hlt|Hge].
    + unfold plot. rewrite !degree_falling by qc_lra.
      apply Qcdiv_le_mono; qc_lra.
    + rewrite (Hplateau x) by qc_lra. apply degree_range.
Qed.

(** C2, witness: the trapezoid [(39, 40, 57, 65)]. *)
Lemma membership_sorted_shape_witness :
  Plot.membership low_water (Qc_of_Z 40) = Ok (Some 1) ∧
  Plot.membership low_water (Qc_of_Z 39) = Ok (Some 0).
Proof.
  destruct (membership_sorted_shape "Low temperature"
              (Qc_of_Z 39) (Qc_of_Z 40) (Qc_of_Z 57) (Qc_of_Z 65))
    as (_ & Hb & _ & Ha & _); [qc_decide..|].
  split; [exact Hb|apply Ha; qc_decide].
Defined.

(** C2 as stated fails where an edge is vertical: with breakpoints
    [(0, 0, 1, 1)], which are in ascending order, [membership] is [1] and not
    [0] both at [a = 0] and at [d = 1]. *)
Lemma membership_vertical_edges :
  sorted step_plot ∧
  Plot.membership step_plot 0 = Ok (Some 1) ∧
  Plot.membership step_plot 0 ≠ Ok (Some 0) ∧
  Plot.membership step_plot 1 = Ok (Some 1) ∧
  Plot.membership step_plot 1 ≠ Ok (Some 0).
Proof.
  repeat split; try qc_decide; vm_compute; intros [=].
Qed.


(** C5 (as amended).  [membership] never divides by zero, whatever the
    breakpoints and [x].  When [a = b] the rising branch is never taken, and
    for breakpoints in ascending order [membership] is [1] at [x = a] and [0]
    below.  When [c = d] the falling branch is never taken, and for
    breakpoints in ascending order [membership] is still [1] at [x = d] and
    [0] above. *)
Theorem membership_no_zero_division (l : string) (a b c d x : Qc) :
  let plot := Plot.mk l (a, b, c, d) in
  Plot.membership plot x ≠ Raise ZeroDivisionError ∧
  (a = b → Plot.branch_at plot x ≠ Plot.Rising) ∧
  (c = d → Plot.branch_at plot x ≠ Plot.Falling) ∧
  (a = b → b ≤ c → c ≤ d →
     Plot.membership plot a = Ok (Some 1) ∧
     (x < a → Plot.membership plot x = Ok (Some 0))) ∧
  (c = d → a ≤ b → b ≤ c →
     Plot.membership plot d = Ok (Some 1) ∧
     (d < x → Plot.membership plot x = Ok (Some 0))).
Proof.
  intros plot. split; [|split; [|split; [|split]]].
  - by rewrite membership_degree.
  - intros ->. unfold plot. destruct (branch_view l b b c d x); try done.
    qc_lra.
  - intros ->. unfold plot. destruct (branch_view l a b d d x); try done.
    qc_lra.
  - intros -> Hbc Hcd. split.
    + apply membership_eq, degree_plateau;
        [apply Qcle_refl|qc_lra|apply Qcle_refl|done].
    + intros Hx. apply membership_eq, degree_outside. by right.
  - intros -> Hab Hbc. split.
    + apply membership_eq, degree_plateau;
        [qc_lra|apply Qcle_refl|done|apply Qcle_refl].
    + intros Hx. apply membership_eq, degree_outside. by left.
Qed.

(** C5, witness: the trapezoid [(0, 0, 1, 1)], with both edges vertical. *)
Lemma membership_no_zero_division_witness :
  Plot.branch_at step_plot 0 ≠ Plot.Rising ∧
  Plot.branch_at step_plot 1 ≠ Plot.Falling ∧
  Plot.membership step_plot 0 = Ok (Some 1) ∧
  Plot.membership step_plot 1 = Ok (Some 1).
Proof.
  destruct (membership_no_zero_division "step" 0 0 1 1 0)
    as (_ & Hr & _ & Ha & _).
  destruct (membership_no_zero_division "step" 0 0 1 1 1)
    as (_ & _ & Hf & _ & Hd).
  split; [exact (Hr eq_refl)|]. split; [exact (Hf eq_refl)|].
  split; [apply Ha; qc_decide|apply Hd; qc_decide].
Defined.

(** C5 as stated fails at [x = d]: with breakpoints [(0, 1, 2, 2)], where
    [c = d], [membership] at [d = 2] is [1], not [0]. *)
Lemma membership_at_vertical_falling_edge :
  sorted late_step ∧
  Plot.membership late_step 2 = Ok (Some 1) ∧
  Plot.membership late_step 2 ≠ Ok (Some 0).
Proof.
  repeat split; try qc_decide; vm_compute; intros [=].
Qed.

(** C8.  For breakpoints [a ≤ b ≤ c ≤ d]: [start] is [a], [end] is [d] and
    [size] is [d - a]. *)
Theorem accessors_sorted (l : string) (a b c d : Qc) :
  a ≤ b → b ≤ c → c ≤ d →
  let plot := Plot.mk l (a, b, c, d) in
  Plot.start plot = a ∧ Plot.end_ plot = d ∧ Plot.size plot = d - a.
Proof.
  intros Hab Hbc Hcd plot.
  destruct (start_end_sorted l a b c d Hab Hbc Hcd) as [Hs He].
  unfold Plot.size. fold plot in Hs, He. by rewrite Hs, He.
Qed.

(** C8, witness: the trapezoid [(39, 40, 57, 65)]. *)
Lemma accessors_sorted_witness :
  Plot.start low_water = Qc_of_Z 39 ∧
  Plot.end_ low_water = Qc_of_Z 65 ∧
  Plot.size low_water = Qc_of_Z 65 - Qc_of_Z 39.
Proof.
  apply (accessors_sorted "Low temperature"
           (Qc_of_Z 39) (Qc_of_Z 40) (Qc_of_Z 57) (Qc_of_Z 65)); qc_decide.
Defined.

(** ** The claims about [Layout] *)

(** C1 (as amended).  A layout whose table is empty is created, in
    whatever order its plots are taken; afterwards, for every point [x]
    that has a number [v] in the table, [v] is the greatest [membership] at
    [x] among the plots that have [x] among their own sample points (the
    others are skipped).  When all the plots have integer breakpoints
    [a ≤ b ≤ c < d], [v] is the greatest [membership] at [x] among all the
    plots. *)
Theorem table_is_max_of_sampling (self : Layout.t) (order : list Plot.t) :
  Layout.values self = ∅ →
  order ≡ₚ elements (Layout.plots self) →
  ∃ self', Layout.creates self order self' ∧
    ∀ x v, Layout.get (Layout.values self') x = Some v →
      is_max_at (λ f, f ∈ Layout.plots self ∧ x ∈ Plot.xValues f) x v ∧
      ((∀ f, f ∈ Layout.plots self → integer_trapezoid f) →
       is_max_at (λ f, f ∈ Layout.plots self) x v).
Proof.
  intros Hempty Hperm.
  destruct (creates_total self order Hperm) as (self' & Hrun).
  exists self'. split; [done|]. intros x v Hget.
  destruct (creates_lookup _ _ _ Hrun) as (_ & _ & _ & Hlookup).
  unfold Layout.get in Hget.
  rewrite Hlookup, Hempty, lookup_empty in Hget.
  apply entry_after_max in Hget as [(f & [Hf Hxf] & Hv) Hub].
  apply (elem_of_order self) in Hf; [|done].
  assert (Hmax : is_max_at
            (λ f, f ∈ Layout.plots self ∧ x ∈ Plot.xValues f) x v).
  { split; [by exists f|]. intros g y [Hg Hxg] Hy.
    apply (Hub g y); [|done]. split; [|done].
    by apply (elem_of_order self). }
  split; [exact Hmax|]. intros Hint. split; [by exists f|].
  intros g y Hg Hy.
  destruct (decide (x ∈ Plot.xValues g)) as [Hxg|Hxg].
  { by apply (proj2 Hmax g y). }
  destruct (grid_point_integer f x (Hint f Hf) Hxf) as (n & ->).
  apply membership_eq in Hy, Hv.
  rewrite (degree_off_grid_integer g n (Hint g Hg) Hxg) in Hy.
  subst y v. apply degree_range.
Qed.

(** C1, witness: the layout of [wide_plot] and [shifted_plot]. *)
Lemma table_is_max_of_sampling_witness :
  ∃ self', Layout.creates two_plots [shifted_plot; wide_plot] self' ∧
    ∀ x v, Layout.get (Layout.values self') x = Some v →
      is_max_at (λ f, f ∈ Layout.plots two_plots ∧ x ∈ Plot.xValues f) x v.
Proof.
  destruct (table_is_max_of_sampling two_plots [shifted_plot; wide_plot]
              eq_refl two_plots_order) as (self' & Hrun & Hmax).
  exists self'. split; [exact Hrun|]. intros x v Hget.
  exact (proj1 (Hmax x v Hget)).
Defined.

(** C1 as stated fails when the sample points of the plots do not
    coincide.  [wide_plot] is sampled at [0, 1, 2, 3, 4] and [shifted_plot]
    at [1/2, 3/2]; both have their breakpoints in ascending order.  The
    table has [1/3] at [x = 1], which is [membership] of [wide_plot], while
    [membership] of [shifted_plot] at [1] is [1]. *)
Lemma table_misses_off_grid_plot :
  sorted wide_plot ∧ sorted shifted_plot ∧
  ∃ self', Layout.create two_plots = Ok self' ∧
    Layout.get (Layout.values self') 1 = Some (Q2Qc (1 # 3)) ∧
    Plot.membership shifted_plot 1 = Ok (Some 1) ∧
    ¬ is_max_at (λ f, f ∈ Layout.plots two_plots) 1 (Q2Qc (1 # 3)).
Proof.
  split; [repeat split; qc_decide|]. split; [repeat split; qc_decide|].
  destruct (create_creates two_plots) as (self' & Hcreate & Hrun).
  exists self'. split; [exact Hcreate|].
  destruct (creates_lookup _ _ _ Hrun) as (_ & _ & _ & Hlookup).
  assert (Hm : Plot.membership shifted_plot 1 = Ok (Some 1)).
  { apply membership_eq. qc_eq. }
  split; [|split; [exact Hm|]].
  - unfold Layout.get. rewrite Hlookup.
    rewrite <- (entry_after_perm 1 _ _ two_plots_order).
    apply option_Qc_eq. vm_compute. reflexivity.
  - intros [_ Hub].
    specialize (Hub shifted_plot 1). simpl in Hub.
    assert (Hle : 1 ≤ Q2Qc (1 # 3)).
    { apply Hub; [|exact Hm].
      apply elem_of_union. left. by apply elem_of_singleton. }
    revert Hle. vm_compute. intros Hle. by apply Hle.
Qed.

(** C3 (as amended).  For a plot whose sample points the program computes
    without rounding ([exact_grid]: [size] and every [start + k] are
    doubles), the sample sequence is [start], [start + 1], [start + 2], ...:
    [ceil(size)] points spaced by [1], each at least [start] and below
    [start + size].  When [start] and [size] are integers these are exactly
    [size] integer points. *)
Theorem xValues_grid (plot : Plot.t) :
  exact_grid plot →
  let n := Z.to_nat (Qceiling (Plot.size plot)) in
  length (Plot.xValues plot) = n ∧
  (∀ i : nat, (i < n)%nat →
     Plot.xValues plot !! i =
     Some (Plot.start plot + Qc_of_Z (Z.of_nat i))) ∧
  (∀ x, x ∈ Plot.xValues plot →
     Plot.start plot ≤ x ∧ x < Plot.start plot + Plot.size plot) ∧
  (∀ s m : Z,
     Plot.start plot = Qc_of_Z s → Plot.size plot = Qc_of_Z m →
     Z.of_nat (length (Plot.xValues plot)) = m ∧
     ∀ i : nat, (i < length (Plot.xValues plot))%nat →
       Plot.xValues plot !! i = Some (Qc_of_Z (s + Z.of_nat i))).
Proof.
  intros _ n. split; [apply length_xValues|].
  split; [apply xValues_lookup|]. split; [apply xValues_range|].
  intros s m Hs Hm.
  assert (Hlen : length (Plot.xValues plot) = Z.to_nat m).
  { by rewrite length_xValues, Hm, Qceiling_of_Z. }
  assert (0 ≤ m)%Z.
  { pose proof (size_nonneg plot) as Hge. rewrite Hm in Hge.
    unfold Qcle in Hge; simpl this in Hge.
    change (inject_Z 0 <= inject_Z m)%Q in Hge. by rewrite <- Zle_Qle in Hge. }
  split; [lia|]. intros i Hi.
  rewrite xValues_lookup.
  - by rewrite Hs, Qc_of_Z_plus.
  - by rewrite <- length_xValues.
Qed.

(** C3, witness: [(1/2, 1, 2, 3)] is sampled at three points from [1/2],
    and [(39, 40, 57, 65)] at the 26 integers from [39]. *)
Lemma xValues_grid_witness :
  length (Plot.xValues half_plot) = 3%nat ∧
  Plot.xValues half_plot !! 2%nat =
    Some (Plot.start half_plot + Qc_of_Z (Z.of_nat 2)) ∧
  Z.of_nat (length (Plot.xValues low_water)) = 26%Z ∧
  Plot.xValues low_water !! 25%nat = Some (Qc_of_Z (39 + Z.of_nat 25)).
Proof.
  destruct (xValues_grid half_plot exact_grid_half_plot)
    as (Hlen & Hnth & _).
  destruct (xValues_grid low_water exact_grid_low_water)
    as (_ & _ & _ & Hint).
  destruct (Hint 39%Z 26%Z) as [Hlen' Hnth']; [qc_eq..|].
  split; [exact Hlen|]. split; [apply Hnth; vm_compute; lia|].
  split; [exact Hlen'|]. apply Hnth'. vm_compute. lia.
Defined.

(** C3 as stated fails for breakpoints that are not integers:
    [(1/2, 1, 2, 3)] has [start = 1/2] and [size = 5/2], and is sampled at
    the three points [1/2, 3/2, 5/2], none of them an integer. *)
Lemma xValues_not_integer :
  sorted half_plot ∧
  this (Plot.start half_plot) = (1 # 2)%Q ∧
  this (Plot.size half_plot) = (5 # 2)%Q ∧
  this <$> Plot.xValues half_plot = [(1 # 2)%Q; (3 # 2)%Q; (5 # 2)%Q] ∧
  (∀ n : Z, Qc_of_Z n ∉ Plot.xValues half_plot) ∧
  Qc_of_Z (Z.of_nat (length (Plot.xValues half_plot))) ≠ Plot.size half_plot.
Proof.
  assert (Hxs : this <$> Plot.xValues half_plot
                = [(1 # 2)%Q; (3 # 2)%Q; (5 # 2)%Q]) by (by vm_compute).
  split; [repeat split; qc_decide|].
  split; [by vm_compute|]. split; [by vm_compute|]. split; [exact Hxs|].
  split.
  - intros n Hin. apply (list_elem_of_fmap_2 this) in Hin.
    rewrite Hxs in Hin. simpl in Hin.
    repeat (apply elem_of_cons in Hin as [[=]|Hin]).
    by apply elem_of_nil in Hin.
  - intros Heq. apply (f_equal this) in Heq. revert Heq. by vm_compute.
Qed.

(** C6.  [create] runs to the end and returns a layout, and taking the
    plots in any other order leaves that same layout, hence the same table:
    two runs over the same layout, whatever their orders, agree. *)
Theorem create_order_independent (self : Layout.t) :
  (∃ self', Layout.create self = Ok self' ∧
     ∀ order, order ≡ₚ elements (Layout.plots self) →
       Layout.creates self order self') ∧
  (∀ order1 order2 self1 self2,
     Layout.creates self order1 self1 →
     Layout.creates self order2 self2 →
     Layout.values self1 = Layout.values self2 ∧ self1 = self2).
Proof.
  assert (Hall : ∀ order1 order2 self1 self2,
            Layout.creates self order1 self1 →
            Layout.creates self order2 self2 → self1 = self2).
  { intros order1 order2 self1 self2 Hrun1 Hrun2.
    destruct (creates_any_order self order1 order2) as (self' & H1 & H2);
      [apply Hrun1|apply Hrun2|].
    rewrite (creates_functional _ _ _ _ Hrun1 H1).
    by rewrite (creates_functional _ _ _ _ Hrun2 H2). }
  split.
  - destruct (create_creates self) as (self' & Hcreate & Hrun).
    exists self'. split; [exact Hcreate|]. intros order Hperm.
    destruct (creates_total self order Hperm) as (self1 & Hrun1).
    by rewrite <- (Hall _ _ _ _ Hrun1 Hrun).
  - intros order1 order2 self1 self2 Hrun1 Hrun2.
    by rewrite (Hall _ _ _ _ Hrun1 Hrun2).
Qed.

(** C6, witness: the two orders of the layout of [wide_plot] and
    [shifted_plot]. *)
Lemma create_order_independent_witness :
  ∃ self', Layout.create two_plots = Ok self' ∧
           Layout.creates two_plots [shifted_plot; wide_plot] self' ∧
           Layout.creates two_plots [wide_plot; shifted_plot] self'.
Proof.
  destruct (create_order_independent two_plots)
    as [(self' & Hcreate & Hany) _].
  exists self'. split; [exact Hcreate|]. split; apply Hany.
  - apply two_plots_order.
  - rewrite <- two_plots_order. apply Permutation_swap.
Defined.

(** C7.  Creating a layout a second time, from the table the first run
    left, leaves that table as it is; and so it is for every order of the
    first run and every order of the second. *)
Theorem create_idempotent (self : Layout.t) :
  ∃ self', Layout.create self = Ok self' ∧
           Layout.create self' = Ok self' ∧
           ∀ order1 order2,
             order1 ≡ₚ elements (Layout.plots self) →
             order2 ≡ₚ elements (Layout.plots self) →
             Layout.creates self order1 self' ∧
             Layout.creates self' order2 self'.
Proof.
  destruct (create_creates self) as (self' & Hcreate & Hrun).
  assert (Hany : ∀ order, order ≡ₚ elements (Layout.plots self) →
                          Layout.creates self order self').
  { intros order Hperm.
    destruct (creates_any_order self order (elements (Layout.plots self)))
      as (self1 & H1 & H2); [done..|].
    by rewrite (creates_functional _ _ _ _ Hrun H2). }
  exists self'. split; [exact Hcreate|]. split.
  - destruct (create_creates self') as (self2 & Hcreate2 & Hrun2).
    rewrite Hcreate2. f_equal.
    apply (creates_functional _ _ _ _ Hrun2).
    destruct (creates_lookup _ _ _ Hrun) as (Hplots & _).
    rewrite Hplots. by apply (creates_again self self' _ _ Hrun).
  - intros order1 order2 H1 H2. split; [by apply Hany|].
    by apply (creates_again self self' order1 order2); [apply Hany|].
Qed.

(** C7, witness: the layout of [wide_plot] and [shifted_plot], taken in
    one order and then in the other. *)
Lemma create_idempotent_witness :
  ∃ self', Layout.create two_plots = Ok self' ∧
           Layout.create self' = Ok self' ∧
           Layout.creates two_plots [shifted_plot; wide_plot] self' ∧
           Layout.creates self' [wide_plot; shifted_plot] self'.
Proof.
  destruct (create_idempotent two_plots) as (self' & H1 & H2 & Hany).
  exists self'. split; [exact H1|]. split; [exact H2|].
  apply Hany; [apply two_plots_order|].
  rewrite <- two_plots_order. apply Permutation_swap.
Defined.

(** C9.  The table is not clipped to [[start, end]] of the layout.  For a
    layout whose table is empty, whatever order the plots are taken in, a
    sample point [x] of one of its plots that lies below [start] has a
    number in the created table, and that number is the greatest
    [membership] at [x] among the plots that sample [x].  In the
    configuration, whatever the translation: the water-temperature layout
    starts at [40], and looking [39] up gives [0], which is what the text
    label shows. *)
Theorem table_not_clipped :
  (∀ (self : Layout.t) (order : list Plot.t) (plot : Plot.t) (x : Qc),
     Layout.values self = ∅ →
     order ≡ₚ elements (Layout.plots self) →
     plot ∈ Layout.plots self →
     x ∈ Plot.xValues plot →
     x < Qc_of_Z (Layout.start self) →
     ∃ self' v,
       Layout.creates self order self' ∧
       Layout.get (Layout.values self') x = Some v ∧
       is_max_at (λ f, f ∈ Layout.plots self ∧ x ∈ Plot.xValues f) x v) ∧
  (∀ translation : gmap string string,
     ∃ layouts water,
       Figure.init translation = Ok layouts ∧
       layouts !! "Water Temperature"%string = Some water ∧
       Layout.start water = 40%Z ∧
       Figure.membershipValue layouts 39 = Ok (Some 0) ∧
       ∀ (int : string → option Z) (text : string),
         text ≠ EmptyString → int text = Some 39%Z →
         Figure.onTextChanged int layouts text = Ok (Figure.Shown 0)).
Proof.
  split.
  - intros self order plot x Hempty Hperm Hplot Hx _.
    destruct (creates_total self order Hperm) as (self' & Hrun).
    destruct (creates_lookup _ _ _ Hrun) as (_ & _ & _ & Hlookup).
    assert (Hin : plot ∈ order) by (by apply (elem_of_order self)).
    destruct (entry_after_upper x order plot Hin Hx None) as (v & Hv & _).
    assert (Hget : Layout.get (Layout.values self') x = Some v).
    { unfold Layout.get. by rewrite Hlookup, Hempty, lookup_empty, Hv. }
    exists self', v. split; [exact Hrun|]. split; [exact Hget|].
    assert (Hmax : is_max_at (λ f, f ∈ order ∧ x ∈ Plot.xValues f) x v).
    { apply entry_after_max. by rewrite Hv. }
    destruct Hmax as [(f & [Hf Hxf] & Hfv) Hub]. split.
    + exists f. split; [|done]. split; [|done].
      by apply (elem_of_order self order).
    + intros g y [Hg Hxg]. apply Hub. split; [|done].
      by apply (elem_of_order self order).
  - intros translation.
    destruct (init_water translation) as (layouts & water & Hinit & Hw & Hrun).
    pose proof (water_39 _ _ _ Hrun) as H39.
    assert (Hvalue : Figure.membershipValue layouts 39 = Ok (Some 0)).
    { unfold Figure.membershipValue. by rewrite Hw, H39. }
    exists layouts, water. split; [exact Hinit|]. split; [exact Hw|].
    split; [by destruct (creates_lookup _ _ _ Hrun) as (_ & -> & _)|].
    split; [exact Hvalue|]. intros int text Htext Hint.
    unfold Figure.onTextChanged.
    rewrite decide_False by done. by rewrite Hint, Hvalue.
Qed.

(** C9, witness: the water-temperature layout with an empty translation,
    and its sample point [39]. *)
Lemma table_not_clipped_witness :
  ∃ self' v,
    Layout.creates (water_layout ∅)
      (elements (Layout.plots (water_layout ∅))) self' ∧
    Layout.get (Layout.values self') (Qc_of_Z 39) = Some v ∧
    is_max_at (λ f, f ∈ Layout.plots (water_layout ∅) ∧
                    Qc_of_Z 39 ∈ Plot.xValues f) (Qc_of_Z 39) v.
Proof.
  apply (proj1 table_not_clipped (water_layout ∅) _ low_water).
  - reflexivity.
  - reflexivity.
  - apply elem_of_water_layout. right. right. reflexivity.
  - apply integer_sampled; lia.
  - apply Qc_of_Z_lt. simpl. lia.
Defined.

(** C10.  [plots] is a set of value-equal records.  Adding a plot whose
    label and breakpoints both equal those of a plot that is already there
    leaves the layout as it is, and with it what [create] returns.  A plot
    is new exactly when it differs from every plot of the layout in its
    label or in its breakpoints; a new plot is kept next to the old ones,
    and after [create] every one of them that samples a point is below the
    number the table has there. *)
Theorem add_idempotent (self : Layout.t) (plot : Plot.t) :
  (∀ other, other ∈ Layout.plots self →
     Plot.label other = Plot.label plot →
     Plot.coords other = Plot.coords plot →
     Layout.add self plot = self ∧
     Layout.create (Layout.add self plot) = Layout.create self) ∧
  Layout.add (Layout.add self plot) plot = Layout.add self plot ∧
  (plot ∉ Layout.plots self ↔
   ∀ other, other ∈ Layout.plots self →
     Plot.label other ≠ Plot.label plot ∨
     Plot.coords other ≠ Plot.coords plot) ∧
  (plot ∉ Layout.plots self →
   size (Layout.plots (Layout.add self plot)) = S (size (Layout.plots self)) ∧
   ∀ order, order ≡ₚ elements (Layout.plots (Layout.add self plot)) →
     ∃ self', Layout.creates (Layout.add self plot) order self' ∧
       ∀ f x, f = plot ∨ f ∈ Layout.plots self →
         x ∈ Plot.xValues f →
         ∃ v y, Layout.get (Layout.values self') x = Some v ∧
                Plot.membership f x = Ok (Some y) ∧ y ≤ v).
Proof.
  assert (Hsame : ∀ s, plot ∈ Layout.plots s → Layout.add s plot = s).
  { intros [t s e vs ps] Hin. unfold Layout.add; simpl in *. f_equal.
    apply subseteq_union_1_L. by apply singleton_subseteq_l. }
  split; [|split; [|split]].
  - intros other Hin Hlabel Hcoords.
    assert (other = plot) as ->.
    { destruct other, plot; simpl in *. congruence. }
    by rewrite (Hsame self Hin).
  - apply Hsame. simpl. apply elem_of_union. left. by apply elem_of_singleton.
  - split.
    + intros Hnew other Hin.
      destruct (decide (Plot.label other = Plot.label plot)) as [Hl|Hl];
        [|by left].
      right. intros Hc. apply Hnew.
      replace plot with other; [done|].
      destruct other, plot; simpl in *. congruence.
    + intros Hdiffer Hin. by destruct (Hdiffer plot Hin).
  - intros Hnew. split.
    + cbn [Layout.add Layout.plots].
      rewrite size_union, size_singleton; [done|].
      by apply disjoint_singleton_l.
    + intros order Hperm.
      destruct (creates_total _ order Hperm) as (self' & Hrun).
      exists self'. split; [exact Hrun|]. intros f x Hf Hx.
      destruct (creates_lookup _ _ _ Hrun) as (_ & _ & _ & Hlookup).
      assert (Hin : f ∈ order).
      { apply (elem_of_order _ _ _ Hperm). simpl.
        apply elem_of_union. destruct Hf as [->|Hf]; [left|by right].
        by apply elem_of_singleton. }
      destruct (entry_after_upper x order f Hin Hx
                  (Layout.values (Layout.add self plot) !! x))
        as (v & Hv & Hle).
      exists v, (degree f x). split; [|split; [apply membership_degree|done]].
      unfold Layout.get. by rewrite Hlookup, Hv.
Qed.

(** C10, witness: [wide_plot] added again to the layout that has it, and
    [shifted_plot] added to the layout that has only [wide_plot]. *)
Lemma add_idempotent_witness :
  Layout.add two_plots wide_plot = two_plots ∧
  Layout.create (Layout.add two_plots wide_plot) = Layout.create two_plots ∧
  size (Layout.plots two_plots) = 2%nat.
Proof.
  assert (Hwide : wide_plot ∈ Layout.plots two_plots).
  { apply (elem_of_order _ _ _ two_plots_order). right. by left. }
  destruct (add_idempotent two_plots wide_plot) as (Hsame & _).
  destruct (Hsame wide_plot Hwide eq_refl eq_refl) as [Hadd Hcreate].
  split; [exact Hadd|]. split; [exact Hcreate|].
  destruct (add_idempotent (Layout.add (Layout.init "two" 0 5) wide_plot)
              shifted_plot) as (_ & _ & _ & Hnew).
  destruct Hnew as [Hsize _].
  - simpl. rewrite elem_of_union, elem_of_singleton.
    intros [[=]|[]%not_elem_of_empty].
  - unfold two_plots. rewrite Hsize. cbn [Layout.add Layout.init Layout.plots].
    by rewrite (right_id_L ∅ (∪)), size_singleton.
Defined.

(** ** Further properties of [Plot] *)

(** X1.  Whatever the order of the four breakpoints, [start] is one of
    them and is the least, [end] is one of them and is the greatest, and
    [size] is not negative. *)
Theorem start_end_extremes (l : string) (a b c d : Qc) :
  let plot := Plot.mk l (a, b, c, d) in
  (Plot.start plot ≤ a ∧ Plot.start plot ≤ b ∧
   Plot.start plot ≤ c ∧ Plot.start plot ≤ d) ∧
  (a ≤ Plot.end_ plot ∧ b ≤ Plot.end_ plot ∧
   c ≤ Plot.end_ plot ∧ d ≤ Plot.end_ plot) ∧
  Plot.start plot ∈ [a; b; c; d] ∧
  Plot.end_ plot ∈ [a; b; c; d] ∧
  0 ≤ Plot.size plot.
Proof.
  intros plot. split; [|split; [|split; [|split]]].
  - unfold plot, Plot.start, py_min; simpl.
    repeat case_decide; repeat split; qc_lra.
  - unfold plot, Plot.end_, py_max; simpl.
    repeat case_decide; repeat split; qc_lra.
  - unfold plot, Plot.start, py_min; simpl.
    repeat case_decide; rewrite !elem_of_cons; tauto.
  - unfold plot, Plot.end_, py_max; simpl.
    repeat case_decide; rewrite !elem_of_cons; tauto.
  - apply size_nonneg.
Qed.

(** X4.  When the last breakpoint is below the first one, [membership] is
    [0] everywhere, whatever the two middle breakpoints. *)
Theorem membership_reversed_is_zero (l : string) (a b c d x : Qc) :
  d < a → Plot.membership (Plot.mk l (a, b, c, d)) x = Ok (Some 0).
Proof.
  intros Hda. apply membership_eq, degree_outside.
  destruct (Qclt_le_dec x a) as [?|?]; [by right|left; qc_lra].
Qed.

(** X4, witness: the tuple [(1, 0, 1, 0)] at [x = 1]. *)
Lemma membership_reversed_is_zero_witness :
  Plot.membership (Plot.mk "reversed" (1, 0, 1, 0)) 1 = Ok (Some 0).
Proof. apply membership_reversed_is_zero. qc_decide. Defined.

(** ** Further properties of the sample points *)

Lemma Qceiling_nonpos (q : Q) : (Qceiling q ≤ 0)%Z ↔ (q <= 0)%Q.
Proof.
  split.
  - intros Hle. apply Qle_trans with (inject_Z (Qceiling q)).
    + apply Qle_ceiling.
    + change 0%Q with (inject_Z 0). by rewrite <- Zle_Qle.
  - intros Hle. change 0%Z with (Qceiling (inject_Z 0)).
    by apply Qceiling_resp_le.
Qed.

Lemma Qceiling_pred_ge (s : Qc) : s - 1 ≤ Qc_of_Z (Qceiling s - 1).
Proof.
  pose proof (Qle_ceiling s) as Hceil.
  unfold Qcle, Qcminus, Qcplus, Qcopp, Q2Qc. simpl this.
  rewrite !Qred_correct. unfold Z.sub. rewrite inject_Z_plus, inject_Z_opp.
  change (inject_Z 1) with 1%Q. lra.
Qed.

Lemma xValues_lookup_inv (plot : Plot.t) (i : nat) (x : Qc) :
  Plot.xValues plot !! i = Some x →
  x = Plot.start plot + Qc_of_Z (Z.of_nat i).
Proof.
  intros Hx. pose proof (lookup_lt_Some _ _ _ Hx) as Hi.
  rewrite length_xValues in Hi. rewrite xValues_lookup in Hx by done.
  by injection Hx as <-.
Qed.

(** X5.  For a plot whose sample points the program computes without
    rounding ([exact_grid]), the sample points are strictly increasing, each
    one [1] above the one before, and none occurs twice. *)
Theorem xValues_increasing (plot : Plot.t) :
  exact_grid plot →
  (∀ (i j : nat) (x y : Qc),
     (i < j)%nat →
     Plot.xValues plot !! i = Some x → Plot.xValues plot !! j = Some y →
     y = x + Qc_of_Z (Z.of_nat (j - i)) ∧ x < y) ∧
  (∀ (i : nat) (x y : Qc),
     Plot.xValues plot !! i = Some x →
     Plot.xValues plot !! S i = Some y → y = x + 1) ∧
  NoDup (Plot.xValues plot).
Proof.
  intros _.
  assert (Hstep : ∀ (i j : nat) (x y : Qc),
            (i < j)%nat →
            Plot.xValues plot !! i = Some x →
            Plot.xValues plot !! j = Some y →
            y = x + Qc_of_Z (Z.of_nat (j - i)) ∧ x < y).
  { intros i j x y Hij Hx%xValues_lookup_inv Hy%xValues_lookup_inv.
    subst x y.
    assert (Heq : Plot.start plot + Qc_of_Z (Z.of_nat j) =
                  Plot.start plot + Qc_of_Z (Z.of_nat i) +
                  Qc_of_Z (Z.of_nat (j - i))).
    { rewrite <- Qcplus_assoc, Qc_of_Z_plus. do 2 f_equal. lia. }
    split; [exact Heq|]. rewrite Heq.
    assert (0 < Qc_of_Z (Z.of_nat (j - i))).
    { unfold Qclt; simpl this.
      change (inject_Z 0 < inject_Z (Z.of_nat (j - i)))%Q.
      rewrite <- Zlt_Qlt. lia. }
    qc_lra. }
  split; [exact Hstep|]. split.
  - intros i x y Hx Hy.
    destruct (Hstep i (S i) x y) as [-> _]; [lia|done..|].
    f_equal. replace (S i - i)%nat with 1%nat by lia. by apply Qc_is_canon.
  - apply NoDup_alt. intros i j x Hi Hj.
    destruct (Nat.lt_trichotomy i j) as [Hlt|[?|Hlt]]; [|done|].
    + destruct (Hstep i j x x Hlt Hi Hj) as [_ Hxx].
      by destruct (Qclt_not_eq _ _ Hxx).
    + destruct (Hstep j i x x Hlt Hj Hi) as [_ Hxx].
      by destruct (Qclt_not_eq _ _ Hxx).
Qed.

(** X5, witness: the first two sample points of [(39, 40, 57, 65)]. *)
Lemma xValues_increasing_witness :
  ∃ x y, Plot.xValues low_water !! 0%nat = Some x ∧
         Plot.xValues low_water !! 1%nat = Some y ∧ y = x + 1.
Proof.
  destruct (xValues_increasing low_water exact_grid_low_water)
    as (_ & Hnext & _).
  assert (H0 : Plot.xValues low_water !! 0%nat =
               Some (Plot.start low_water + Qc_of_Z (Z.of_nat 0))).
  { apply xValues_lookup. vm_compute. lia. }
  assert (H1 : Plot.xValues low_water !! 1%nat =
               Some (Plot.start low_water + Qc_of_Z (Z.of_nat 1))).
  { apply xValues_lookup. vm_compute. lia. }
  eexists _, _. split; [exact H0|]. split; [exact H1|].
  exact (Hnext 0%nat _ _ H0 H1).
Defined.

Lemma xValues_nil_iff (plot : Plot.t) :
  Plot.xValues plot = [] ↔ Plot.start plot = Plot.end_ plot.
Proof.
  rewrite <- length_zero_iff_nil, length_xValues.
  pose proof (size_nonneg plot) as Hge.
  assert (Z.to_nat (Qceiling (Plot.size plot)) = 0%nat ↔
          (Plot.size plot <= 0)%Q) as ->.
  { rewrite <- Qceiling_nonpos. lia. }
  unfold Plot.size in *. split.
  - intros Hle. apply Qc_is_canon. qc_lra.
  - intros ->. qc_lra.
Qed.

(** X6.  A plot has no sample point exactly when its four breakpoints are
    equal; such a plot is [1] at its single point, yet creating it leaves
    any table as it was. *)
Theorem xValues_empty_iff (l : string) (a b c d : Qc) :
  let plot := Plot.mk l (a, b, c, d) in
  (Plot.xValues plot = [] ↔ a = b ∧ b = c ∧ c = d) ∧
  (a = b → b = c → c = d →
   Plot.membership plot a = Ok (Some 1) ∧
   ∀ values, Layout.create_order values [plot] = Ok values).
Proof.
  intros plot.
  assert (Hiff : Plot.xValues plot = [] ↔ a = b ∧ b = c ∧ c = d).
  { rewrite xValues_nil_iff. split.
    - intros Heq.
      assert (Hmin : Plot.start plot ≤ a ∧ Plot.start plot ≤ b ∧
                     Plot.start plot ≤ c ∧ Plot.start plot ≤ d).
      { unfold plot, Plot.start, py_min; simpl.
        repeat case_decide; repeat split; qc_lra. }
      assert (Hmax : a ≤ Plot.end_ plot ∧ b ≤ Plot.end_ plot ∧
                     c ≤ Plot.end_ plot ∧ d ≤ Plot.end_ plot).
      { unfold plot, Plot.end_, py_max; simpl.
        repeat case_decide; repeat split; qc_lra. }
      rewrite <- Heq in Hmax.
      destruct Hmin as (?&?&?&?), Hmax as (?&?&?&?).
      repeat split; apply Qcle_antisym;
        (eapply Qcle_trans; [eassumption|eassumption]).
    - intros (-> & -> & ->).
      unfold plot, Plot.start, Plot.end_, py_min, py_max; simpl.
      by repeat case_decide. }
  split; [exact Hiff|]. intros -> -> ->. split.
  - apply membership_eq, degree_plateau; apply Qcle_refl.
  - intros values. cbn [Layout.create_order].
    replace (Plot.xValues plot) with (@nil Qc); [done|].
    symmetry. by apply Hiff.
Qed.

(** X6, witness: the single point [(1, 1, 1, 1)]. *)
Lemma xValues_empty_iff_witness :
  Plot.membership (Plot.mk "point" (1, 1, 1, 1)) 1 = Ok (Some 1) ∧
  Layout.create_order ∅ [Plot.mk "point" (1, 1, 1, 1)] = Ok ∅.
Proof.
  destruct (xValues_empty_iff "point" 1 1 1 1) as [_ Hpoint].
  destruct (Hpoint eq_refl eq_refl eq_refl) as [Hm Hcreate].
  split; [exact Hm|apply Hcreate].
Defined.

(** X7.  For a plot whose sample points the program computes without
    rounding ([exact_grid]): when it has sample points, the first is [start]
    and the last lies less than [1] below [end]; [end] itself is never a
    sample point. *)
Theorem xValues_first_last (plot : Plot.t) :
  exact_grid plot →
(Plot.end_ plot ∉ Plot.xValues plot) ∧
  (Plot.xValues plot ≠ [] →
   head (Plot.xValues plot) = Some (Plot.start plot) ∧
   ∃ x, last (Plot.xValues plot) = Some x ∧
        Plot.end_ plot - 1 ≤ x ∧ x < Plot.end_ plot).
Proof.
  intros _.
  assert (Hend : Plot.start plot + Plot.size plot = Plot.end_ plot).
  { unfold Plot.size. ring. }
  split.
  - intros [_ Hlt]%xValues_range. rewrite Hend in Hlt.
    by destruct (Qclt_not_eq _ _ Hlt).
  - intros Hne.
    assert (Hlen : (0 < Z.to_nat (Qceiling (Plot.size plot)))%nat).
    { rewrite <- length_xValues. destruct (Plot.xValues plot); [done|].
      simpl. lia. }
    split.
    + rewrite head_lookup, xValues_lookup by done. f_equal.
      replace (Qc_of_Z (Z.of_nat 0)) with 0 by (by apply Qc_is_canon). ring.
    + rewrite last_lookup, length_xValues.
      rewrite xValues_lookup by lia. eexists. split; [done|].
      split.
      * assert (Hx : Plot.size plot - 1 ≤
                     Qc_of_Z (Z.of_nat
                                (pred (Z.to_nat (Qceiling (Plot.size plot)))))).
        { apply Qcle_trans with (Qc_of_Z (Qceiling (Plot.size plot) - 1)).
          - apply Qceiling_pred_ge.
          - apply Qc_of_Z_le. lia. }
        rewrite <- Hend.
        replace (Plot.start plot + Plot.size plot - 1)
          with (Plot.start plot + (Plot.size plot - 1)) by ring.
        by apply Qcplus_le_mono_l.
      * rewrite <- Hend. apply (xValues_range plot).
        apply list_elem_of_lookup.
        exists (pred (Z.to_nat (Qceiling (Plot.size plot)))).
        apply xValues_lookup. lia.
Qed.

(** X7, witness: [(39, 40, 57, 65)] is sampled from [39] to [64]. *)
Lemma xValues_first_last_witness :
  head (Plot.xValues low_water) = Some (Plot.start low_water) ∧
  ∃ x, last (Plot.xValues low_water) = Some x ∧
       Plot.end_ low_water - 1 ≤ x ∧ x < Plot.end_ low_water.
Proof.
  apply (xValues_first_last low_water exact_grid_low_water).
  intros Hnil. apply (f_equal length) in Hnil. revert Hnil.
  rewrite length_xValues. by vm_compute.
Defined.

(** ** Further properties of [Layout] *)

Lemma sampled_idemp (k : Qc) (entry : option pyfloat) (f : Plot.t) :
  sampled k (sampled k entry f) f = sampled k entry f.
Proof.
  unfold sampled. case_decide; [|done]. cbn [mjoin option_join].
  by rewrite keep_idemp.
Qed.

(** [sampled] looks at the breakpoints of the plot only. *)
Lemma sampled_coords (k : Qc) (entry : option pyfloat) (f g : Plot.t) :
  Plot.coords f = Plot.coords g → sampled k entry f = sampled k entry g.
Proof.
  destruct f as [lf cf], g as [lg cg]. cbn [Plot.coords]. by intros ->.
Qed.

Lemma entry_after_snoc (k : Qc) (order : list Plot.t) (f : Plot.t)
    (entry : option pyfloat) :
  entry_after (order ++ [f]) k entry = sampled k (entry_after order k entry) f.
Proof. unfold entry_after. by rewrite foldl_snoc. Qed.

(** Sampling once more a plot of the order changes nothing. *)
Lemma sampled_after_in (k : Qc) (order : list Plot.t) (f : Plot.t)
    (entry : option pyfloat) :
  f ∈ order →
  sampled k (entry_after order k entry) f = entry_after order k entry.
Proof.
  intros (rest & Hperm)%elem_of_Permutation.
  assert (Hsnoc : order ≡ₚ rest ++ [f]).
  { by rewrite Hperm, Permutation_cons_append. }
  rewrite (entry_after_perm k _ _ Hsnoc), entry_after_snoc.
  apply sampled_idemp.
Qed.

(** Sampling plots whose breakpoints are those of plots already sampled
    changes nothing. *)
Lemma entry_after_resample (k : Qc) (order1 order2 : list Plot.t)
    (entry : option pyfloat) :
  (∀ g, g ∈ order2 → ∃ f, f ∈ order1 ∧ Plot.coords f = Plot.coords g) →
  entry_after order2 k (entry_after order1 k entry) =
  entry_after order1 k entry.
Proof.
  induction order2 as [|g rest IH]; intros Htwin; [done|].
  change (entry_after (g :: rest) k (entry_after order1 k entry))
    with (entry_after rest k (sampled k (entry_after order1 k entry) g)).
  destruct (Htwin g) as (f & Hf & Hc); [by left|].
  rewrite <- (sampled_coords k _ f g Hc), sampled_after_in by done.
  apply IH. intros g' Hg'. apply Htwin. by right.
Qed.

(** What has been sampled before does not matter once its plots are sampled
    again. *)
Lemma entry_after_absorb (k : Qc) (order1 order2 : list Plot.t)
    (entry : option pyfloat) :
  (∀ f, f ∈ order1 → ∃ g, g ∈ order2 ∧ Plot.coords g = Plot.coords f) →
  entry_after order2 k (entry_after order1 k entry) =
  entry_after order2 k entry.
Proof.
  revert entry. induction order1 as [|f rest IH]; intros entry Htwin; [done|].
  change (entry_after (f :: rest) k entry)
    with (entry_after rest k (sampled k entry f)).
  rewrite IH by (intros f' Hf'; apply Htwin; by right).
  destruct (Htwin f) as (g & Hg & Hc); [by left|].
  rewrite <- (sampled_coords k entry g f Hc).
  apply elem_of_Permutation in Hg as (rest2 & Hperm).
  rewrite !(entry_after_perm k _ _ Hperm).
  change (entry_after rest2 k (sampled k (sampled k entry g) g) =
          entry_after rest2 k (sampled k entry g)).
  by rewrite sampled_idemp.
Qed.

(** The table depends on the breakpoints of the plots only. *)
Lemma entry_after_coords (k : Qc) (order1 order2 : list Plot.t)
    (entry : option pyfloat) :
  (∀ f, f ∈ order1 → ∃ g, g ∈ order2 ∧ Plot.coords g = Plot.coords f) →
  (∀ g, g ∈ order2 → ∃ f, f ∈ order1 ∧ Plot.coords f = Plot.coords g) →
  entry_after order1 k entry = entry_after order2 k entry.
Proof.
  intros H12 H21.
  rewrite <- (entry_after_resample k order1 order2 entry H21).
  by apply entry_after_absorb.
Qed.

Lemma entry_after_is_Some (k : Qc) (order : list Plot.t)
    (entry : option pyfloat) :
  is_Some (entry_after order k entry) ↔
  is_Some entry ∨ ∃ f, f ∈ order ∧ k ∈ Plot.xValues f.
Proof.
  destruct (decide (Exists (λ f, k ∈ Plot.xValues f) order))
    as [(f & Hf & Hk)%Exists_exists|Hnone].
  - destruct (entry_after_upper k order f Hf Hk entry) as (v & -> & _).
    split; [|by eexists]. intros _. right. by exists f.
  - rewrite entry_after_untouched.
    + split; [by left|]. intros [?|(f & Hf & Hk)]; [done|].
      destruct Hnone. apply Exists_exists. by exists f.
    + intros f Hf Hk. apply Hnone, Exists_exists. by exists f.
Qed.

(** A number in the table never gets smaller. *)
Lemma entry_after_grows (k o : Qc) (order : list Plot.t) :
  ∃ v, entry_after order k (Some (Some o)) = Some (Some v) ∧ o ≤ v.
Proof.
  revert o. induction order as [|q rest IH]; intros o.
  { exists o. split; [done|apply Qcle_refl]. }
  change (entry_after (q :: rest) k (Some (Some o)))
    with (entry_after rest k (sampled k (Some (Some o)) q)).
  unfold sampled. case_decide; [|apply IH].
  cbn [mjoin option_join].
  destruct (IH (keep (Some o) (degree q k))) as (v & Hv & Hle).
  exists v. split; [done|].
  apply Qcle_trans with (keep (Some o) (degree q k)); [|done].
  apply keep_old_le.
Qed.

Lemma one_plot_order : [wide_plot] ≡ₚ elements (Layout.plots one_plot).
Proof.
  unfold one_plot. rewrite elements_add, elements_init; [done|].
  apply not_elem_of_empty.
Qed.

Lemma seeded_order : [wide_plot] ≡ₚ elements (Layout.plots seeded).
Proof. cbn [seeded Layout.plots]. by rewrite elements_singleton. Qed.

(** X8.  After [create] the keys of the table are the keys it had before
    and the sample points of the plots, nothing else; so in a layout created
    from an empty table, looking a point up gives nothing exactly when no
    plot samples it. *)
Theorem created_keys (self self' : Layout.t) (order : list Plot.t) :
  Layout.creates self order self' →
  (∀ k, is_Some (Layout.values self' !! k) ↔
        is_Some (Layout.values self !! k) ∨
        ∃ f, f ∈ Layout.plots self ∧ k ∈ Plot.xValues f) ∧
  (Layout.values self = ∅ →
   ∀ k, Layout.get (Layout.values self') k = None ↔
        ∀ f, f ∈ Layout.plots self → k ∉ Plot.xValues f).
Proof.
  intros Hrun.
  destruct (creates_lookup _ _ _ Hrun) as (_ & _ & _ & Hlookup).
  destruct Hrun as [Hperm _].
  assert (Hin : ∀ k, (∃ f, f ∈ order ∧ k ∈ Plot.xValues f) ↔
                     (∃ f, f ∈ Layout.plots self ∧ k ∈ Plot.xValues f)).
  { intros k. split; intros (f & Hf & Hk); exists f; (split; [|done]);
      by apply (elem_of_order self order). }
  split.
  - intros k. by rewrite Hlookup, entry_after_is_Some, Hin.
  - intros Hempty k. unfold Layout.get.
    rewrite Hlookup, Hempty, lookup_empty. split.
    + intros Hnone f Hf Hk.
      apply (elem_of_order self order) in Hf; [|done].
      destruct (entry_after_upper k order f Hf Hk None) as (v & Hv & _).
      by rewrite Hv in Hnone.
    + intros Hno. rewrite entry_after_untouched; [done|].
      intros f Hf. apply Hno. by apply (elem_of_order self order).
Qed.

(** X8, witness: the layout of [wide_plot] and [shifted_plot]. *)
Lemma created_keys_witness :
  ∃ self', Layout.creates two_plots [shifted_plot; wide_plot] self' ∧
    ∀ k, Layout.get (Layout.values self') k = None ↔
         ∀ f, f ∈ Layout.plots two_plots → k ∉ Plot.xValues f.
Proof.
  destruct (creates_total two_plots _ two_plots_order) as (self' & Hrun).
  exists self'. split; [exact Hrun|].
  by apply (created_keys two_plots self' [shifted_plot; wide_plot] Hrun).
Defined.

(** X9.  [create] keeps a table of numbers between [0] and [1] a table of
    numbers between [0] and [1]: no entry is [None], below [0] or above
    [1]. *)
Theorem created_unit_table (self self' : Layout.t) (order : list Plot.t) :
  unit_table (Layout.values self) →
  Layout.creates self order self' →
  unit_table (Layout.values self').
Proof.
  intros Hunit Hrun k e He.
  destruct (creates_lookup _ _ _ Hrun) as (_ & _ & _ & Hlookup).
  rewrite Hlookup in He.
  destruct (entry_after_attained k order (Layout.values self !! k))
    as [Hsame|(f & _ & _ & Hf)].
  - rewrite Hsame in He. by apply (Hunit k).
  - rewrite Hf in He. injection He as <-. eexists. split; [done|].
    apply degree_range.
Qed.

(** X9, witness: the layout of [wide_plot] and [shifted_plot], whose table
    is empty. *)
Lemma created_unit_table_witness :
  ∃ self', Layout.creates two_plots [shifted_plot; wide_plot] self' ∧
           unit_table (Layout.values self').
Proof.
  destruct (creates_total two_plots _ two_plots_order) as (self' & Hrun).
  exists self'. split; [exact Hrun|].
  apply (created_unit_table two_plots self' [shifted_plot; wide_plot]);
    [|exact Hrun].
  intros k e He.
  change (Layout.values two_plots) with (∅ : gmap Qc pyfloat) in He.
  by rewrite lookup_empty in He.
Defined.

(** X10.  [create] never lowers a number the table holds and never removes
    a key; a key that is not a sample point of any plot keeps its entry. *)
Theorem created_grows (self self' : Layout.t) (order : list Plot.t) :
  Layout.creates self order self' →
  ∀ k,
    (∀ v, Layout.get (Layout.values self) k = Some v →
          ∃ v', Layout.get (Layout.values self') k = Some v' ∧ v ≤ v') ∧
    (is_Some (Layout.values self !! k) →
     is_Some (Layout.values self' !! k)) ∧
    ((∀ f, f ∈ Layout.plots self → k ∉ Plot.xValues f) →
     Layout.values self' !! k = Layout.values self !! k).
Proof.
  intros Hrun k.
  destruct (creates_lookup _ _ _ Hrun) as (_ & _ & _ & Hlookup).
  destruct Hrun as [Hperm _]. split; [|split].
  - intros v Hv%get_Some.
    destruct (entry_after_grows k v order) as (v' & Hv' & Hle).
    exists v'. split; [|done]. apply get_Some. by rewrite Hlookup, Hv.
  - intros Hsome. rewrite Hlookup, entry_after_is_Some. by left.
  - intros Hno. rewrite Hlookup. apply entry_after_untouched.
    intros f Hf. apply Hno. by apply (elem_of_order self order).
Qed.

(** X10, witness: a table that holds [1/2] at [1], where [wide_plot] is
    [1/3]. *)
Lemma created_grows_witness :
  ∃ self', Layout.creates seeded [wide_plot] self' ∧
    ∃ v', Layout.get (Layout.values self') 1 = Some v' ∧ Q2Qc (1 # 2) ≤ v'.
Proof.
  destruct (creates_total seeded _ seeded_order) as (self' & Hrun).
  exists self'. split; [exact Hrun|].
  apply (created_grows seeded self' [wide_plot] Hrun 1).
  apply get_Some. apply lookup_insert_eq.
Defined.

(** X11.  A plot can be added after [create] and [create] run again: the
    layout is the one that adding the plot first and creating once
    gives. *)
Theorem create_incremental (self self1 : Layout.t)
    (order1 order2 : list Plot.t) (plot : Plot.t) :
  Layout.creates self order1 self1 →
  order2 ≡ₚ elements (Layout.plots (Layout.add self plot)) →
  ∃ self2, Layout.creates (Layout.add self plot) order2 self2 ∧
           Layout.creates (Layout.add self1 plot) order2 self2.
Proof.
  intros Hrun1 Hperm2.
  destruct (creates_lookup _ _ _ Hrun1) as (Hplots & Hstart & Hend & Hlookup).
  destruct (creates_total _ order2 Hperm2) as (self2 & Hrun2).
  exists self2. split; [exact Hrun2|].
  destruct (creates_lookup _ _ _ Hrun2) as (_ & _ & _ & Hlookup2).
  destruct Hrun1 as (Hperm1 & values1 & _ & ->).
  destruct Hrun2 as (_ & values2 & Hvalues2 & ->).
  cbn [Layout.values Layout.add] in *.
  split; [exact Hperm2|].
  destruct (create_order_lookup order2 values1) as (values3 & Hrun3 & Hlookup3).
  exists values3. split; [exact Hrun3|].
  cbn [Layout.add Layout.title Layout.start Layout.end_ Layout.plots
       Layout.values].
  f_equal. apply map_eq. intros k.
  rewrite Hlookup2, Hlookup3, Hlookup. symmetry.
  apply entry_after_absorb. intros f Hf. exists f. split; [|done].
  rewrite Hperm2. apply elem_of_elements. cbn [Layout.add Layout.plots].
  apply elem_of_union. right. apply elem_of_elements. by rewrite <- Hperm1.
Qed.

(** X11, witness: [shifted_plot] added to the created layout of
    [wide_plot]. *)
Lemma create_incremental_witness :
  ∃ self1 self2,
    Layout.creates one_plot [wide_plot] self1 ∧
    Layout.creates two_plots [shifted_plot; wide_plot] self2 ∧
    Layout.creates (Layout.add self1 shifted_plot)
      [shifted_plot; wide_plot] self2.
Proof.
  destruct (creates_total one_plot _ one_plot_order) as (self1 & Hrun1).
  destruct (create_incremental one_plot self1 [wide_plot]
              [shifted_plot; wide_plot] shifted_plot Hrun1 two_plots_order)
    as (self2 & H2 & H3).
  exists self1, self2. split; [exact Hrun1|]. split; [exact H2|exact H3].
Defined.

Lemma foldl_add (self : Layout.t) (new : list Plot.t) :
  foldl Layout.add self new =
  Layout.mk (Layout.title self) (Layout.start self) (Layout.end_ self)
    (Layout.values self) (list_to_set new ∪ Layout.plots self).
Proof.
  revert self. induction new as [|p new IH]; intros self.
  - destruct self. cbn. f_equal. by rewrite (left_id_L ∅ (∪)).
  - cbn [foldl]. rewrite IH. cbn. f_equal.
    apply set_eq. intros f. rewrite !elem_of_union, elem_of_singleton. tauto.
Qed.

(** X12.  Only which plots are added matters, not the order of the [add]
    calls nor how often a plot is added: two sequences of calls with the
    same plots give the same layout, hence the same result of [create]. *)
Theorem add_any_order (self : Layout.t) (new1 new2 : list Plot.t) :
  (∀ f, f ∈ new1 ↔ f ∈ new2) →
  foldl Layout.add self new1 = foldl Layout.add self new2 ∧
  Layout.create (foldl Layout.add self new1) =
  Layout.create (foldl Layout.add self new2).
Proof.
  intros Hsame.
  assert (Heq : foldl Layout.add self new1 = foldl Layout.add self new2).
  { rewrite !foldl_add. f_equal. apply set_eq. intros f.
    by rewrite !elem_of_union, !elem_of_list_to_set, Hsame. }
  split; [exact Heq|]. by rewrite Heq.
Qed.

(** X12, witness: [wide_plot] and [shifted_plot] added in the two orders,
    the second time with [wide_plot] twice. *)
Lemma add_any_order_witness :
  foldl Layout.add (Layout.init "two" 0 5) [wide_plot; shifted_plot] =
  foldl Layout.add (Layout.init "two" 0 5)
    [shifted_plot; wide_plot; wide_plot].
Proof.
  apply add_any_order. intros f. rewrite !elem_of_cons. tauto.
Defined.

Lemma created_values_coords (self1 self2 self1' self2' : Layout.t)
    (order1 order2 : list Plot.t) :
  Layout.values self1 = Layout.values self2 →
  (∀ f, f ∈ Layout.plots self1 →
        ∃ g, g ∈ Layout.plots self2 ∧ Plot.coords g = Plot.coords f) →
  (∀ g, g ∈ Layout.plots self2 →
        ∃ f, f ∈ Layout.plots self1 ∧ Plot.coords f = Plot.coords g) →
  Layout.creates self1 order1 self1' →
  Layout.creates self2 order2 self2' →
  Layout.values self1' = Layout.values self2'.
Proof.
  intros Hvalues H12 H21 Hrun1 Hrun2.
  destruct (creates_lookup _ _ _ Hrun1) as (_ & _ & _ & Hlookup1).
  destruct (creates_lookup _ _ _ Hrun2) as (_ & _ & _ & Hlookup2).
  destruct Hrun1 as [Hperm1 _], Hrun2 as [Hperm2 _].
  apply map_eq. intros k. rewrite Hlookup1, Hlookup2, Hvalues.
  apply entry_after_coords.
  - intros f Hf%(elem_of_order self1 order1); [|done].
    destruct (H12 f Hf) as (g & Hg & Hc). exists g. split; [|done].
    by apply (elem_of_order self2 order2).
  - intros g Hg%(elem_of_order self2 order2); [|done].
    destruct (H21 g Hg) as (f & Hf & Hc). exists f. split; [|done].
    by apply (elem_of_order self1 order1).
Qed.

(** X13.  The table depends on the breakpoints of the plots only, not on
    their labels: two layouts with the same table, whose plots have the same
    breakpoint tuples, have the same table after [create]. *)
Theorem created_table_ignores_labels (self1 self2 self1' self2' : Layout.t)
    (order1 order2 : list Plot.t) :
  Layout.values self1 = Layout.values self2 →
  (∀ f, f ∈ Layout.plots self1 →
        ∃ g, g ∈ Layout.plots self2 ∧ Plot.coords g = Plot.coords f) →
  (∀ g, g ∈ Layout.plots self2 →
        ∃ f, f ∈ Layout.plots self1 ∧ Plot.coords f = Plot.coords g) →
  Layout.creates self1 order1 self1' →
  Layout.creates self2 order2 self2' →
  Layout.values self1' = Layout.values self2'.
Proof. apply created_values_coords. Qed.

Lemma water_layout_coords (translation1 translation2 : gmap string string)
    (f : Plot.t) :
  f ∈ Layout.plots (water_layout translation1) →
  ∃ g, g ∈ Layout.plots (water_layout translation2) ∧
       Plot.coords g = Plot.coords f.
Proof.
  intros Hf%elem_of_water_layout.
  destruct Hf as [Hf|[Hf|Hf]]; subst f; eexists;
    (split; [apply elem_of_water_layout|]).
  - left. reflexivity.
  - reflexivity.
  - right. left. reflexivity.
  - reflexivity.
  - right. right. reflexivity.
  - reflexivity.
Qed.

(** X13, witness: the water-temperature layout under the empty translation
    and under one that renames a plot. *)
Lemma created_table_ignores_labels_witness :
  ∃ self1' self2',
    Layout.create (water_layout ∅) = Ok self1' ∧
    Layout.create
      (water_layout {[ "Low temperature"%string := "Cold"%string ]})
    = Ok self2' ∧
    Layout.values self1' = Layout.values self2'.
Proof.
  destruct (create_creates (water_layout ∅)) as (s1 & Hc1 & Hrun1).
  destruct (create_creates
              (water_layout {[ "Low temperature"%string := "Cold"%string ]}))
    as (s2 & Hc2 & Hrun2).
  exists s1, s2. split; [exact Hc1|]. split; [exact Hc2|].
  assert (Hvalues :
            Layout.values (water_layout ∅) =
            Layout.values
              (water_layout {[ "Low temperature"%string := "Cold"%string ]}))
    by reflexivity.
  exact (created_table_ignores_labels _ _ s1 s2 _ _ Hvalues
           (water_layout_coords _ _) (water_layout_coords _ _) Hrun1 Hrun2).
Defined.

(** ** [create] and the axis *)

Lemma memberships_ok (plot : Plot.t) (xs : list Qc) :
  Layout.memberships plot xs = Ok ((λ x, Some (degree plot x)) <$> xs).
Proof.
  induction xs as [|x xs IH]; [done|].
  cbn [Layout.memberships]. by rewrite membership_degree, IH.
Qed.

Lemma draw_order_ok (order : list Plot.t) (values : gmap Qc pyfloat)
    (axis : list Layout.axis_call) :
  ∃ values', Layout.create_order values order = Ok values' ∧
    Layout.draw_order values axis order =
    Ok (values', axis ++ (curve_of <$> order)).
Proof.
  revert values axis. induction order as [|f order IH]; intros values axis.
  { exists values. split; [done|]. cbn. by rewrite (right_id_L [] (++)). }
  cbn [Layout.create_order Layout.draw_order]. rewrite memberships_ok.
  destruct (put_all_lookup f (Plot.xValues f) values) as (values1 & -> & _).
  cbn [mbind result_bind].
  destruct (IH values1
              (axis ++ [Layout.plot_call (Plot.xValues f)
                          ((λ x, Some (degree f x)) <$> Plot.xValues f)
                          (Plot.label f)]))
    as (values' & -> & ->).
  exists values'. split; [done|]. by rewrite <- (assoc_L (++)).
Qed.

Lemma create_on_ok (self : Layout.t) (order : list Plot.t)
    (axis : list Layout.axis_call) :
  order ≡ₚ elements (Layout.plots self) →
  ∃ self', Layout.creates self order self' ∧
    Layout.create_on self order axis =
    Ok (self', axis ++ (curve_of <$> order) ++ closing_calls self).
Proof.
  intros Hperm. unfold Layout.create_on.
  destruct (draw_order_ok order (Layout.values self) axis)
    as (values' & Hrun & ->).
  cbn [mbind result_bind fst snd]. eexists. split.
  - split; [exact Hperm|]. exists values'. split; [exact Hrun|reflexivity].
  - by rewrite <- (assoc_L (++)).
Qed.



(** X15.  In a layout created from an empty table, the table is the upper
    envelope of the curves drawn: at every drawn point the table holds a
    number that is at least the number drawn, and every number of the table
    is a point of one of the curves. *)
Theorem table_is_envelope (self : Layout.t) (order : list Plot.t) :
  Layout.values self = ∅ →
  order ≡ₚ elements (Layout.plots self) →
  ∃ self' axis',
    Layout.create_on self order [] = Ok (self', axis') ∧
    (∀ xs ys label j x y,
       Layout.plot_call xs ys label ∈ axis' →
       xs !! j = Some x → ys !! j = Some (Some y) →
       ∃ v, Layout.get (Layout.values self') x = Some v ∧ y ≤ v) ∧
    (∀ x v,
       Layout.get (Layout.values self') x = Some v →
       ∃ xs ys label j,
         Layout.plot_call xs ys label ∈ axis' ∧
         xs !! j = Some x ∧ ys !! j = Some (Some v)).
Proof.
  intros Hempty Hperm.
  destruct (create_on_ok self order [] Hperm) as (self' & Hrun & Hon).
  destruct (creates_lookup _ _ _ Hrun) as (_ & _ & _ & Hlookup).
  eexists self', _. split; [exact Hon|]. split.
  - intros xs ys label j x y Hcall Hx Hy.
    cbn [app] in Hcall. apply elem_of_app in Hcall as [Hcall|Hcall].
    + apply list_elem_of_fmap in Hcall as (f & Hcurve & Hf).
      injection Hcurve as -> -> ->.
      rewrite list_lookup_fmap, Hx in Hy. injection Hy as <-.
      assert (Hin : x ∈ Plot.xValues f).
      { apply list_elem_of_lookup. by exists j. }
      destruct (entry_after_upper x order f Hf Hin None) as (v & Hv & Hle).
      exists v. split; [|done]. unfold Layout.get.
      by rewrite Hlookup, Hempty, lookup_empty, Hv.
    + unfold closing_calls in Hcall.
      repeat (apply elem_of_cons in Hcall as [[=]|Hcall]).
      by apply elem_of_nil in Hcall.
  - intros x v Hget. unfold Layout.get in Hget.
    rewrite Hlookup, Hempty, lookup_empty in Hget.
    destruct (entry_after_attained x order None) as [Hnone|(f & Hf & Hx & Hv)].
    { by rewrite Hnone in Hget. }
    rewrite Hv in Hget. injection Hget as <-.
    apply list_elem_of_lookup in Hx as (j & Hj).
    exists (Plot.xValues f), ((λ x, Some (degree f x)) <$> Plot.xValues f),
      (Plot.label f), j.
    split; [|split; [done|by rewrite list_lookup_fmap, Hj]].
    cbn [app]. apply elem_of_app. left.
    apply list_elem_of_fmap. by exists f.
Qed.

(** X15, witness: the layout of [wide_plot] and [shifted_plot]. *)
Lemma table_is_envelope_witness :
  ∃ self' axis',
    Layout.create_on two_plots [shifted_plot; wide_plot] [] =
      Ok (self', axis') ∧
    ∀ x v,
      Layout.get (Layout.values self') x = Some v →
      ∃ xs ys label j,
        Layout.plot_call xs ys label ∈ axis' ∧
        xs !! j = Some x ∧ ys !! j = Some (Some v).
Proof.
  destruct (table_is_envelope two_plots [shifted_plot; wide_plot]
              eq_refl two_plots_order) as (self' & axis' & Hon & _ & Hpoint).
  exists self', axis'. split; [exact Hon|exact Hpoint].
Defined.

(** ** Further properties of [Figure] *)

Lemma layout_of_fields (translation : gmap string string) (title : string)
    (start end_ : Z) (plotsData : list (string * (Z * Z * Z * Z))) :
  let layout := Figure.layout_of translation title (start, end_, plotsData) in
  Layout.values layout = ∅ ∧
  Layout.start layout = start ∧
  Layout.end_ layout = end_ ∧
  ∀ f, f ∈ Layout.plots layout ↔
       ∃ t c, (t, c) ∈ plotsData ∧
              f = Plot.mk (translate translation t) (Figure.floats c).
Proof.
  cbn [Figure.layout_of].
  set (step := λ (layout : Layout.t) (entry : string * (Z * Z * Z * Z)),
         let '(plotTitle, plotCoords) := entry in
         Layout.add layout
           (Plot.mk (translate translation plotTitle)
                    (Figure.floats plotCoords))).
  assert (Hfold : ∀ data acc,
            Layout.values (foldl step acc data) = Layout.values acc ∧
            Layout.start (foldl step acc data) = Layout.start acc ∧
            Layout.end_ (foldl step acc data) = Layout.end_ acc ∧
            ∀ f, f ∈ Layout.plots (foldl step acc data) ↔
                 f ∈ Layout.plots acc ∨
                 ∃ t c, (t, c) ∈ data ∧
                   f = Plot.mk (translate translation t) (Figure.floats c)).
  { induction data as [|[t c] data IH]; intros acc.
    - repeat split; [by left|].
      intros [?|(t & c & []%elem_of_nil & _)]. done.
    - cbn [foldl]. destruct (IH (step acc (t, c))) as (Hv & Hs & He & Hp).
      split; [by rewrite Hv|]. split; [by rewrite Hs|].
      split; [by rewrite He|]. intros f. rewrite Hp.
      cbn [step Layout.add Layout.plots].
      rewrite elem_of_union, elem_of_singleton. split.
      + intros [[->|?]|(t' & c' & Hin & ->)].
        * right. exists t, c. split; [by left|done].
        * by left.
        * right. exists t', c'. split; [by right|done].
      + intros [?|(t' & c' & Hin & ->)]; [by left; right|].
        apply elem_of_cons in Hin as [[= -> ->]|Hin]; [by left; left|].
        right. by exists t', c'. }
  destruct (Hfold plotsData
              (Layout.init (translate translation title) start end_))
    as (Hv & Hs & He & Hp).
  split; [exact Hv|]. split; [exact Hs|]. split; [exact He|].
  intros f. rewrite Hp. split; [|by right].
  by intros [[]%not_elem_of_empty|?].
Qed.

Lemma layout_of_twin (translation1 translation2 : gmap string string)
    (title : string) (layoutData : Z * Z * list (string * (Z * Z * Z * Z)))
    (f : Plot.t) :
  f ∈ Layout.plots (Figure.layout_of translation1 title layoutData) →
  ∃ g, g ∈ Layout.plots (Figure.layout_of translation2 title layoutData) ∧
       Plot.coords g = Plot.coords f.
Proof.
  destruct layoutData as [[start end_] plotsData].
  destruct (layout_of_fields translation1 title start end_ plotsData)
    as (_ & _ & _ & Hp1).
  destruct (layout_of_fields translation2 title start end_ plotsData)
    as (_ & _ & _ & Hp2).
  intros (t & c & Hin & ->)%Hp1.
  exists (Plot.mk (translate translation2 t) (Figure.floats c)).
  split; [|done]. apply Hp2. by exists t, c.
Qed.

Lemma layouts_of_same (translation1 translation2 : gmap string string)
    (data : list (string * (Z * Z * list (string * (Z * Z * Z * Z)))))
    (layouts1 layouts2 : gmap string Layout.t) :
  same_tables layouts1 layouts2 →
  ∃ result1 result2,
    Figure.layouts_of translation1 data layouts1 = Ok result1 ∧
    Figure.layouts_of translation2 data layouts2 = Ok result2 ∧
    same_tables result1 result2.
Proof.
  revert layouts1 layouts2.
  induction data as [|[title layoutData] data IH]; intros layouts1 layouts2 Hsame.
  { by exists layouts1, layouts2. }
  cbn [Figure.layouts_of].
  destruct (create_creates (Figure.layout_of translation1 title layoutData))
    as (l1 & -> & Hrun1).
  destruct (create_creates (Figure.layout_of translation2 title layoutData))
    as (l2 & -> & Hrun2).
  cbn [mbind result_bind]. apply IH. intros title'.
  destruct (decide (title = title')) as [<-|Hne].
  - rewrite !lookup_insert_eq.
    destruct (creates_lookup _ _ _ Hrun1) as (_ & Hs1 & He1 & _).
    destruct (creates_lookup _ _ _ Hrun2) as (_ & Hs2 & He2 & _).
    destruct layoutData as [[start end_] plotsData].
    destruct (layout_of_fields translation1 title start end_ plotsData)
      as (Hv1 & Hs1' & He1' & _).
    destruct (layout_of_fields translation2 title start end_ plotsData)
      as (Hv2 & Hs2' & He2' & _).
    split; [|split; congruence].
    apply (created_values_coords _ _ l1 l2 _ _) with (4 := Hrun1) (5 := Hrun2).
    + congruence.
    + apply layout_of_twin.
    + apply layout_of_twin.
  - rewrite !lookup_insert_ne by done. apply Hsame.
Qed.

(** X16.  What [Figure] builds does not depend on the translation, apart
    from titles and labels: for any two translation dictionaries, and any
    layouts data whose breakpoints [float] converts exactly ([exact_data]),
    both constructions succeed, keep the same layout titles as keys and give
    each layout the same table, start and end; so the answer to a water
    temperature is the same under any translation. *)
Theorem tables_ignore_translation
    (translation1 translation2 : gmap string string)
    (data : list (string * (Z * Z * list (string * (Z * Z * Z * Z))))) :
  exact_data data →
  ∃ layouts1 layouts2,
    Figure.layouts_of translation1 data ∅ = Ok layouts1 ∧
    Figure.layouts_of translation2 data ∅ = Ok layouts2 ∧
    same_tables layouts1 layouts2 ∧
    (∀ waterTemperature,
       Figure.membershipValue layouts1 waterTemperature =
       Figure.membershipValue layouts2 waterTemperature) ∧
    (∀ int text,
       Figure.onTextChanged int layouts1 text =
       Figure.onTextChanged int layouts2 text).
Proof.
  intros _.
  destruct (layouts_of_same translation1 translation2 data ∅ ∅)
    as (layouts1 & layouts2 & H1 & H2 & Hsame).
  { intros title. by rewrite !lookup_empty. }
  exists layouts1, layouts2. split; [exact H1|]. split; [exact H2|].
  split; [exact Hsame|].
  assert (Hvalue : ∀ n, Figure.membershipValue layouts1 n =
                        Figure.membershipValue layouts2 n).
  { intros n. unfold Figure.membershipValue.
    specialize (Hsame "Water Temperature"%string).
    destruct (layouts1 !! "Water Temperature"%string) as [l1|],
      (layouts2 !! "Water Temperature"%string) as [l2|]; try done.
    destruct Hsame as (-> & _). done. }
  split; [exact Hvalue|]. intros int text. unfold Figure.onTextChanged.
  case_decide; [done|]. destruct (int text) as [n|]; [|done].
  by rewrite Hvalue.
Qed.

Lemma exact_layouts_data : exact_data Figure._LAYOUTS_DATA.
Proof.
  assert (H53 : (2 ^ 53 = 9007199254740992)%Z) by reflexivity.
  intros title start end_ plotsData plotTitle a b c d Hlayout Hplot.
  unfold Figure._LAYOUTS_DATA in Hlayout.
  repeat (apply elem_of_cons in Hlayout as [Hlayout|Hlayout];
          [injection Hlayout as -> -> -> ->;
           repeat (apply elem_of_cons in Hplot as [Hplot|Hplot];
                   [injection Hplot as -> -> -> -> ->; lia|]);
           by apply elem_of_nil in Hplot|]).
  by apply elem_of_nil in Hlayout.
Qed.

(** X16, witness: the configuration, under the empty translation and under
    one that renames a plot. *)
Lemma tables_ignore_translation_witness :
  ∃ layouts1 layouts2,
    Figure.init ∅ = Ok layouts1 ∧
    Figure.init {[ "Low temperature"%string := "Cold"%string ]} =
      Ok layouts2 ∧
    same_tables layouts1 layouts2.
Proof.
  destruct (tables_ignore_translation ∅
              {[ "Low temperature"%string := "Cold"%string ]}
              Figure._LAYOUTS_DATA exact_layouts_data)
    as (layouts1 & layouts2 & H1 & H2 & Hsame & _).
  exists layouts1, layouts2. split; [exact H1|]. split; [exact H2|exact Hsame].
Defined.

(** Which integers the created water-temperature table answers. *)
Lemma water_lookup (translation : gmap string string) (order : list Plot.t)
    (water : Layout.t) (n : Z) :
  Layout.creates (water_layout translation) order water →
  ((39 ≤ n ≤ 105)%Z →
   ∃ v, Layout.get (Layout.values water) (Qc_of_Z n) = Some v ∧
        0 ≤ v ∧ v ≤ 1) ∧
  (¬ (39 ≤ n ≤ 105)%Z →
   Layout.get (Layout.values water) (Qc_of_Z n) = None).
Proof.
  intros Hrun.
  destruct (creates_lookup _ _ _ Hrun) as (_ & _ & _ & Hlookup).
  destruct Hrun as [Hperm _].
  unfold Layout.get. rewrite Hlookup.
  change (Layout.values (water_layout translation))
    with (∅ : gmap Qc pyfloat).
  rewrite lookup_empty.
  assert (Hsampled : (∃ f, f ∈ order ∧ Qc_of_Z n ∈ Plot.xValues f) ↔
                     (39 ≤ n ≤ 105)%Z).
  { split.
    - intros (f & Hf & Hk).
      apply (elem_of_order _ _ _ Hperm), elem_of_water_layout in Hf.
      destruct Hf as [Hf|[Hf|Hf]]; subst f;
        apply integer_sampled in Hk; lia.
    - intros Hn.
      assert (Hcase : (78 ≤ n < 106 ∨ 55 ≤ n < 83 ∨ 39 ≤ n < 65)%Z) by lia.
      destruct Hcase as [?|[?|?]]; eexists;
        (split; [apply (elem_of_order _ _ _ Hperm), elem_of_water_layout|]).
      + left. reflexivity.
      + apply integer_sampled; lia.
      + right. left. reflexivity.
      + apply integer_sampled; lia.
      + right. right. reflexivity.
      + apply integer_sampled; lia. }
  split.
  - intros (f & Hf & Hk)%Hsampled.
    destruct (entry_after_upper _ order f Hf Hk None) as (v & Hv & _).
    destruct (entry_after_attained (Qc_of_Z n) order None)
      as [Hnone|(g & _ & _ & Hg)].
    { by rewrite Hnone in Hv. }
    rewrite Hg. eexists. split; [done|]. apply degree_range.
  - intros Hout. rewrite entry_after_untouched; [done|].
    intros f Hf Hk. apply Hout, Hsampled. by exists f.
Qed.

(** X17.  With the configuration of [Figure], under any translation,
    [onTextChanged] never raises: an empty text blanks the label; a text
    that is not an integer, or an integer outside [39..105], is reported
    incorrect; an integer of [39..105] shows a number between [0] and [1].
    So [39], one below the start [40] of the layout, is answered, and [106],
    the last breakpoint, is not. *)
Theorem onTextChanged_answers (translation : gmap string string)
    (int : string → option Z) (text : string) :
  ∃ layouts,
    Figure.init translation = Ok layouts ∧
    (text = EmptyString →
     Figure.onTextChanged int layouts text = Ok Figure.Blank) ∧
    (text ≠ EmptyString → int text = None →
     Figure.onTextChanged int layouts text = Ok Figure.Incorrect) ∧
    (∀ n, text ≠ EmptyString → int text = Some n →
       ((39 ≤ n ≤ 105)%Z →
        ∃ v, Figure.onTextChanged int layouts text = Ok (Figure.Shown v) ∧
             0 ≤ v ∧ v ≤ 1) ∧
       (¬ (39 ≤ n ≤ 105)%Z →
        Figure.onTextChanged int layouts text = Ok Figure.Incorrect)).
Proof.
  destruct (init_water translation) as (layouts & water & Hinit & Hw & Hrun).
  exists layouts. split; [exact Hinit|]. unfold Figure.onTextChanged.
  split; [|split].
  - intros ->. done.
  - intros Htext Hint. rewrite decide_False by done. by rewrite Hint.
  - intros n Htext Hint. rewrite decide_False by done. rewrite Hint.
    unfold Figure.membershipValue. rewrite Hw. cbn [mbind result_bind].
    destruct (water_lookup translation _ water n Hrun) as [Hin Hout].
    split.
    + intros Hn. destruct (Hin Hn) as (v & -> & Hv). by exists v.
    + intros Hn. by rewrite (Hout Hn).
Qed.

(** X17, witness: the texts that parse to [39] and to [106]. *)
Lemma onTextChanged_answers_witness :
  ∃ layouts,
    Figure.init ∅ = Ok layouts ∧
    (∃ v, Figure.onTextChanged (λ _, Some 39%Z) layouts "39" =
          Ok (Figure.Shown v)) ∧
    Figure.onTextChanged (λ _, Some 106%Z) layouts "106" =
    Ok Figure.Incorrect.
Proof.
  destruct (onTextChanged_answers ∅ (λ _, Some 39%Z) "39")
    as (layouts & Hinit & _ & _ & H39).
  destruct (onTextChanged_answers ∅ (λ _, Some 106%Z) "106")
    as (layouts' & Hinit' & _ & _ & H106).
  rewrite Hinit in Hinit'. injection Hinit' as <-.
  exists layouts. split; [exact Hinit|]. split.
  - destruct (H39 39%Z) as [Hin _]; [done..|].
    destruct Hin as (v & Hv & _); [lia|]. by exists v.
  - destruct (H106 106%Z) as [_ Hout]; [done..|]. apply Hout. lia.
Defined.
